(** * combine_docs: merging subpackage documentation into Optimum's

    A shallow embedding of [docs/combine_docs.py].  The script relocates the
    HTML files of every subpackage's documentation build below Optimum's
    build directory and splices the subpackage's table of contents into
    Optimum's [_toctree.yml].

    Modelling choices.
    - Python strings are Rocq [string]s (byte strings; non-ASCII text is its
      UTF-8 encoding, which the ASCII literals of the script can neither
      split nor match part-way).
    - A table-of-contents entry is a YAML mapping over the keys [title],
      [local], [sections] and [isExpanded]; each key may be absent.  The
      table of contents is a tree: no entry is shared between two places
      (a YAML file without aliases).
    - An uncaught Python exception is a value of [error]; pure steps return
      [result], steps that touch the file system are state transformers
      that keep the file system reached when the exception was raised.
    - In-place mutation of a list or dict is explicit value passing: a
      function returns the object it would have mutated. *)

From Stdlib Require Import List String Ascii Bool Arith Lia.
Import ListNotations.
Open Scope string_scope.
Open Scope list_scope.

(** ** Exceptions *)

Inductive error : Type :=
| KeyError (key : string)      (* d[key] on a dict without that key *)
| IndexError                   (* seq[i] out of range *)
| StopIteration                (* next() on an exhausted iterator *)
| FileNotFoundError            (* open()/copyfile() on a missing file *)
| YAMLError.                   (* the file is not a table of contents *)

Inductive result (A : Type) : Type :=
| Ok (a : A)
| Err (e : error).

Arguments Ok {A} a.
Arguments Err {A} e.

Module Result.

Definition bind {A B} (r : result A) (k : A -> result B) : result B :=
  match r with
  | Ok a => k a
  | Err e => Err e
  end.

Definition of_option {A} (o : option A) (e : error) : result A :=
  match o with
  | Some a => Ok a
  | None => Err e
  end.

End Result.

Declare Scope result_scope.
Delimit Scope result_scope with result.
Notation "'let!' x ':=' r 'in' k" := (Result.bind r (fun x => k))
  (at level 10, x pattern, r at level 100, k at level 200) : result_scope.
Open Scope result_scope.

(** ** Table-of-contents entries *)

(** One mapping of [_toctree.yml].  [None] is an absent key. *)
#[local] Unset Elimination Schemes.
Inductive entry : Type :=
  Entry {
    title : option string;
    local : option string;
    sections : option (list entry);
    isExpanded : option bool
  }.
#[local] Set Elimination Schemes.

(** [d["title"] = v], [d["local"] = v] and [d["sections"] = v]. *)
Definition set_title (v : string) (d : entry) : entry :=
  Entry (Some v) (local d) (sections d) (isExpanded d).

Definition set_local (v : string) (d : entry) : entry :=
  Entry (title d) (Some v) (sections d) (isExpanded d).

Definition set_sections (v : list entry) (d : entry) : entry :=
  Entry (title d) (local d) (Some v) (isExpanded d).

(** [d[key]] raises [KeyError] on an absent key. *)
Definition getitem {A} (key : string) (field : option A) : result A :=
  Result.of_option field (KeyError key).

(** ** Loops that mutate the elements of a list

    [for x in l: body(x)], where the body mutates [x] in place or raises:
    the list of the mutated elements, or the first exception. *)

Section Traverse.

Variables (A B : Type) (body : A -> result B).

Fixpoint traverse (l : list A) : result (list B) :=
  match l with
  | [] => Ok []
  | x :: l' =>
      let! y := body x in
      let! ys := traverse l' in
      Ok (y :: ys)
  end.

End Traverse.

Arguments traverse {A B} body l.

(** ** [rename_subpackage_toc] (lines 21-35)

    [rename_entry subpackage item] is the body of the outer loop
    [for item in toc] for one [item]; the inner loop runs over
    [item["sections"]].  A [file] with a [local] key gets the prefix; any
    other [file] goes to the recursive call on the one-element list
    [[file]], whose outer loop runs its body once, on [file]. *)
Fixpoint rename_entry (subpackage : string) (item : entry) {struct item}
  : result entry :=
  match item with
  | Entry t l secs x =>
      match secs with
      | None => Err (KeyError "sections")
      | Some files =>
          let! files' :=
            traverse
              (fun file =>
                 match local file with
                 | Some ref => Ok (set_local (subpackage ++ "/" ++ ref) file)
                 | None => rename_entry subpackage file
                 end)
              files in
          Ok (Entry t l (Some files') x)
      end
  end.

Definition rename_subpackage_toc (subpackage : string) (toc : list entry)
  : result (list entry) :=
  traverse (rename_entry subpackage) toc.

(** ** Python's [str] operations used by the script *)

Module Str.

(** [s.startswith(prefix)] *)
Fixpoint startswith (prefix s : string) : bool :=
  match prefix, s with
  | EmptyString, _ => true
  | String _ _, EmptyString => false
  | String a prefix', String b s' =>
      Ascii.eqb a b && startswith prefix' s'
  end.

(** The slices [s[n:]] and [s[:n]]. *)
Fixpoint drop (n : nat) (s : string) : string :=
  match n, s with
  | O, _ => s
  | S _, EmptyString => EmptyString
  | S n', String _ s' => drop n' s'
  end.

Fixpoint take (n : nat) (s : string) : string :=
  match n, s with
  | O, _ => EmptyString
  | S _, EmptyString => EmptyString
  | S n', String a s' => String a (take n' s')
  end.

(** [s.endswith(suffix)] *)
Definition endswith (suffix s : string) : bool :=
  (String.length suffix <=? String.length s)%nat
  && (drop (String.length s - String.length suffix) s =? suffix)%string.

(** [s.find(sep)]: the index of the first occurrence of [sep], [None]
    where Python answers [-1]. *)
Fixpoint find (sep s : string) : option nat :=
  if startswith sep s then Some 0
  else match s with
       | EmptyString => None
       | String _ s' => option_map S (find sep s')
       end.

(** [s.split(sep)] for a non-empty [sep] (Python raises [ValueError] on an
    empty one; the script only splits on a literal).  The text is cut at
    the first occurrence of [sep] and the scan resumes behind it.  Every
    cut consumes at least one character, so [length s] rounds are enough. *)
Fixpoint split_loop (fuel : nat) (sep s : string) : list string :=
  match find sep s with
  | None => [s]
  | Some i =>
      match fuel with
      | O => [s]
      | S fuel' =>
          take i s :: split_loop fuel' sep (drop (i + String.length sep) s)
      end
  end.

Definition split (sep s : string) : list string :=
  split_loop (String.length s) sep s.

End Str.

(** [seq[-1]] *)
Fixpoint last_item {A} (l : list A) : result A :=
  match l with
  | [] => Err IndexError
  | [a] => Ok a
  | _ :: l' => last_item l'
  end.

(** [seq[0]] *)
Definition first_item {A} (l : list A) : result A :=
  match l with
  | [] => Err IndexError
  | a :: _ => Ok a
  end.

(** [l.insert(i, x)]: an index past the end appends. *)
Definition insert {A} (i : nat) (x : A) (l : list A) : list A :=
  firstn i l ++ x :: skipn i l.

(** ** The file system

    A path is the tuple [Path.parts] of its components; every path of the
    script is relative.  A file system is the list of its files, in the order
    in which the operating system enumerates them; directories are the
    prefixes of the paths of the files, so [mkdir(parents=True,
    exist_ok=True)] has nothing to do.  A YAML file is identified with the
    value [yaml.safe_load] reads from it and [yaml.safe_dump] writes to it.
    A subpackage name and a version are one path component each.  Failures
    of the operating system itself (permissions, a full disk) are outside
    the model.  Folders are not listed: [rglob] enumerates files only, and
    writing below a file is not refused.  The properties that depend on it
    name their conditions ([is_component], [file_tree],
    [html_folder_free]) or are stated for a run that returns. *)

Definition path : Type := list string.

Inductive content : Type :=
| Bytes (data : string)
| Toctree (toc : list entry).

Definition filesystem : Type := list (path * content).

Module Path.

Fixpoint eqb (p q : path) : bool :=
  match p, q with
  | [], [] => true
  | a :: p', b :: q' => (a =? b)%string && eqb p' q'
  | _, _ => false
  end.

(** [p.relative_to(root)], [None] where [p] is not below [root]. *)
Fixpoint relative_to (root p : path) : option path :=
  match root, p with
  | [], _ => Some p
  | _ :: _, [] => None
  | a :: root', b :: p' =>
      if (a =? b)%string then relative_to root' p' else None
  end.

(** [p.name] *)
Definition name (p : path) : string := List.last p "".

(** [list(root.rglob(pattern))]: the files strictly below [root] whose
    name matches the pattern, in enumeration order. *)
Definition rglob (root : path) (pattern : string -> bool) (fs : filesystem)
  : list path :=
  filter
    (fun p =>
       match relative_to root p with
       | Some (_ :: _) => pattern (name p)
       | _ => false
       end)
    (map fst fs).

End Path.

Fixpoint read (p : path) (fs : filesystem) : option content :=
  match fs with
  | [] => None
  | (q, c) :: fs' => if Path.eqb p q then Some c else read p fs'
  end.

(** Writing truncates an existing file and creates a missing one. *)
Fixpoint write (p : path) (c : content) (fs : filesystem) : filesystem :=
  match fs with
  | [] => [(p, c)]
  | (q, c') :: fs' =>
      if Path.eqb p q then (q, c) :: fs' else (q, c') :: write p c fs'
  end.

(** ** Commands: state over the file system, with exceptions

    An exception stops the command and leaves the file system as it is at
    that point: nothing is rolled back. *)

Definition io (A : Type) : Type := filesystem -> filesystem * result A.

Module IO.

Definition ret {A} (a : A) : io A := fun fs => (fs, Ok a).

Definition bind {A B} (m : io A) (k : A -> io B) : io B :=
  fun fs =>
    match m fs with
    | (fs', Ok a) => k a fs'
    | (fs', Err e) => (fs', Err e)
    end.

Definition lift {A} (r : result A) : io A := fun fs => (fs, r).

(** [list(root.rglob(pattern))] *)
Definition rglob (root : path) (pattern : string -> bool) : io (list path) :=
  fun fs => (fs, Ok (Path.rglob root pattern fs)).

(** [shutil.copyfile(src, dst)] *)
Definition copyfile (src dst : path) : io unit :=
  fun fs =>
    match read src fs with
    | None => (fs, Err FileNotFoundError)
    | Some c => (write dst c fs, Ok tt)
    end.

(** [with open(p, "r") as f: yaml.safe_load(f)] *)
Definition load (p : path) : io (list entry) :=
  fun fs =>
    match read p fs with
    | None => (fs, Err FileNotFoundError)
    | Some (Bytes _) => (fs, Err YAMLError)
    | Some (Toctree toc) => (fs, Ok toc)
    end.

(** [with open(p, "w") as f: yaml.safe_dump(toc, f, allow_unicode=True)] *)
Definition dump (p : path) (toc : list entry) : io unit :=
  fun fs => (write p (Toctree toc) fs, Ok tt).

End IO.

Declare Scope io_scope.
Delimit Scope io_scope with io.
Notation "'let*' x ':=' m 'in' k" := (IO.bind m (fun x => k))
  (at level 10, x pattern, m at level 100, k at level 200) : io_scope.
Open Scope io_scope.

(** [next(iter(l))] *)
Definition next {A} (l : list A) : result A :=
  match l with
  | [] => Err StopIteration
  | a :: _ => Ok a
  end.

(** ** [rename_copy_subpackage_html_paths] (lines 38-80) *)

Definition language_folder_level : nat := 3.

(** The loop [for html_path in subpackage_html_paths].  The new path is
    built by the f-string of line 75, whose fields are separated by [/]:
    here the concatenation of the parts. *)
Fixpoint copy_html_paths (subpackage : string) (optimum_path : path)
    (version : string) (subpackage_html_paths : list path) : io unit :=
  match subpackage_html_paths with
  | [] => IO.ret tt
  | html_path :: rest =>
      let* language_folder :=
        IO.lift (Result.of_option
                   (nth_error html_path language_folder_level) IndexError) in
      let relative_path_from_language_folder :=
        skipn (language_folder_level + 1) html_path in
      let new_path_in_optimum :=
        optimum_path ++ ["optimum"; version; language_folder; subpackage]
                     ++ relative_path_from_language_folder in
      let* _ := IO.copyfile html_path new_path_in_optimum in
      copy_html_paths subpackage optimum_path version rest
  end.

Definition rename_copy_subpackage_html_paths (subpackage : string)
    (subpackage_path optimum_path : path) (version : string) : io unit :=
  let* subpackage_html_paths :=
    IO.rglob subpackage_path (Str.endswith ".html") in
  copy_html_paths subpackage optimum_path version subpackage_html_paths.

(** ** [add_neuron_doc] (lines 83-105) *)

Definition neuron_entry : entry :=
  {| sections :=
       Some [ {| local := Some "docs/optimum-neuron/index";
                 title := Some "🤗 Optimum Neuron";
                 sections := None;
                 isExpanded := None |} ];
     title := Some "AWS Trainium/Inferentia";
     isExpanded := Some false;
     local := None |}.

Definition add_neuron_doc (base_toc : list entry) : list entry :=
  insert 1 neuron_entry base_toc.

(** ** [main] (lines 108-146) *)

(** Line 139: [subpackage_toc[0]["title"] =
    subpackage_toc[0]["title"].split("Optimum ")[-1]]. *)
Definition shorten_title (subpackage_toc : list entry) : result (list entry) :=
  let! first := first_item subpackage_toc in
  let! full := getitem "title" (title first) in
  let! short := last_item (Str.split "Optimum " full) in
  Ok (set_title short first :: tl subpackage_toc).

Definition optimum_path : path := ["optimum-doc-build"].

Definition is_toctree (name : string) : bool := (name =? "_toctree.yml")%string.

(** Lines 122-139 of the loop body: relocate the HTML files of the
    subpackage, then load its table of contents, rewrite it and shorten its
    title.  The value is [subpackage_toc] as line 140 finds it. *)
Definition relocate_and_rewrite (version subpackage : string)
  : io (list entry) :=
  let subpackage_path := [(subpackage ++ "-doc-build")%string] in
  let* _ :=
    rename_copy_subpackage_html_paths
      subpackage subpackage_path optimum_path version in
  let* found := IO.rglob subpackage_path is_toctree in
  let* subpackage_toc_path := IO.lift (next found) in
  let* subpackage_toc := IO.load subpackage_toc_path in
  let* subpackage_toc :=
    IO.lift (rename_subpackage_toc subpackage subpackage_toc) in
  IO.lift (shorten_title subpackage_toc).

(** The body of the loop of line 117, for one [subpackage]; the value is the
    [base_toc] the iteration leaves. *)
Definition process (version subpackage : string) (base_toc : list entry)
  : io (list entry) :=
  if (subpackage =? "neuron")%string then
    IO.ret (add_neuron_doc base_toc)
  else
    let* subpackage_toc := relocate_and_rewrite version subpackage in
    if negb (subpackage =? "graphcore")%string then
      let* first := IO.lift (first_item subpackage_toc) in
      IO.ret (insert 1 first base_toc)
    else
      IO.ret base_toc.

(** [for subpackage in subpackages: ...], threading [base_toc]. *)
Fixpoint for_each_subpackage (version : string) (subpackages : list string)
    (base_toc : list entry) : io (list entry) :=
  match subpackages with
  | [] => IO.ret base_toc
  | subpackage :: rest =>
      let* base_toc := process version subpackage base_toc in
      for_each_subpackage version rest base_toc
  end.

(** The loop of lines 117-142 over [args.subpackages[::-1]]. *)
Definition main_loop (version : string) (subpackages : list string)
    (base_toc : list entry) : io (list entry) :=
  for_each_subpackage version (rev subpackages) base_toc.

Definition main (subpackages : list string) (version : string) : io unit :=
  let* found := IO.rglob optimum_path is_toctree in
  let* base_toc_path := IO.lift (next found) in
  let* base_toc := IO.load base_toc_path in
  let* base_toc := main_loop version subpackages base_toc in
  IO.dump base_toc_path base_toc.

(** ** Vocabulary of the properties *)

(** [sep] occurs in [s] at index [i]. *)
Definition occurs_at (sep s : string) (i : nat) : Prop :=
  exists pre post, s = (pre ++ sep ++ post)%string /\ String.length pre = i.

Definition contains (sep s : string) : Prop := exists i, occurs_at sep s i.

(** A leaf is an entry with a [local] key, an internal node one with a
    [sections] key. *)
Definition is_leaf (e : entry) : bool :=
  match local e with Some _ => true | None => false end.

Definition is_internal (e : entry) : bool :=
  match sections e with Some _ => true | None => false end.

(** Every node of the tree is a leaf or an internal node, never both. *)
Fixpoint leaf_xor_internal (e : entry) : bool :=
  match e with
  | Entry _ (Some _) None _ => true
  | Entry _ None (Some files) _ => forallb leaf_xor_internal files
  | _ => false
  end.

(** The [local] references of the leaves of a tree, in document order. *)
Fixpoint references (e : entry) : list string :=
  match e with
  | Entry _ l secs _ =>
      match l with Some ref => [ref] | None => [] end
      ++ match secs with
         | Some files => flat_map references files
         | None => []
         end
  end.

(** The reference [ref] below the folder of [subpackage]. *)
Definition prefixed (subpackage ref : string) : string :=
  (subpackage ++ "/" ++ ref)%string.

(** What the inner loop of [rename_subpackage_toc] does to one [file]. *)
Definition rename_file (subpackage : string) (file : entry) : result entry :=
  match local file with
  | Some ref => Ok (set_local (prefixed subpackage ref) file)
  | None => rename_entry subpackage file
  end.

(** A tree without the text of its references: what is left is every
    [title], every [isExpanded], the keys each entry has and the nesting. *)
Fixpoint skeleton (e : entry) : entry :=
  match e with
  | Entry t l secs x =>
      Entry t (option_map (fun _ => EmptyString) l)
            (option_map (map skeleton) secs) x
  end.

(** The single chain with one internal node per element of [above] (its
    [title] and [isExpanded]), outermost first, ending in [leaf]. *)
Fixpoint chain (above : list (option string * option bool)) (leaf : entry)
  : entry :=
  match above with
  | [] => leaf
  | (t, x) :: above' => Entry t None (Some [chain above' leaf]) x
  end.

Definition chain_depth (above : list (option string * option bool)) : nat :=
  S (List.length above).

(** The first entries of the tables of contents of [subpackages], each
    relocated and rewritten in turn, in the order of the list. *)
Fixpoint first_entries (version : string) (subpackages : list string)
  : io (list entry) :=
  match subpackages with
  | [] => IO.ret []
  | subpackage :: rest =>
      let* subpackage_toc := relocate_and_rewrite version subpackage in
      let* first := IO.lift (first_item subpackage_toc) in
      let* others := first_entries version rest in
      IO.ret (first :: others)
  end.

(** Neither the redirect-only nor the excluded subpackage. *)
Definition standard (subpackage : string) : Prop :=
  subpackage <> "neuron"%string /\ subpackage <> "graphcore"%string.

(** ** The scenario of the documentation: one subpackage, [acme] *)

Definition home : entry :=
  {| title := Some "Home"; local := Some "index";
     sections := None; isExpanded := None |}.

Definition intro : entry :=
  {| title := Some "Intro"; local := Some "intro";
     sections := None; isExpanded := None |}.

Definition acme_toc : list entry :=
  [ {| title := Some "Optimum Acme"; local := None;
       sections := Some [intro]; isExpanded := None |} ].

Definition acme_entry : entry :=
  {| title := Some "Acme"; local := None;
     sections := Some [ {| title := Some "Intro"; local := Some "acme/intro";
                           sections := None; isExpanded := None |} ];
     isExpanded := None |}.

(** The documentation builds on disk: Optimum's table of contents, and the
    table of contents and one page of [acme]. *)
Definition acme_files : filesystem :=
  [ (["optimum-doc-build"; "_toctree.yml"], Toctree [home]);
    (["acme-doc-build"; "_toctree.yml"], Toctree acme_toc);
    (["acme-doc-build"; "optimum.acme"; "main"; "en"; "index.html"],
     Bytes "<h1>Acme</h1>") ].

(** Three more builds next to Optimum's: [habana], [intel] and
    [graphcore]. *)
Definition habana_toc : list entry :=
  [ {| title := Some "Optimum Habana"; local := None;
       sections :=
         Some [ {| title := Some "🤗 Optimum Habana"; local := Some "index";
                   sections := None; isExpanded := None |};
                {| title := Some "Tutorials"; local := None;
                   sections :=
                     Some [ {| title := Some "Overview";
                               local := Some "tutorials/overview";
                               sections := None; isExpanded := None |} ];
                   isExpanded := Some false |} ];
       isExpanded := None |} ].

Definition intel_toc : list entry :=
  [ {| title := Some "Optimum Intel"; local := None;
       sections :=
         Some [ {| title := Some "Installation"; local := Some "installation";
                   sections := None; isExpanded := None |} ];
       isExpanded := None |} ].

Definition graphcore_toc : list entry :=
  [ {| title := Some "Optimum Graphcore"; local := None;
       sections :=
         Some [ {| title := Some "Quickstart"; local := Some "quickstart";
                   sections := None; isExpanded := None |} ];
       isExpanded := None |} ].

Definition partner_files : filesystem :=
  [ (["optimum-doc-build"; "_toctree.yml"], Toctree [home; intro]);
    (["habana-doc-build"; "_toctree.yml"], Toctree habana_toc);
    (["habana-doc-build"; "optimum.habana"; "main"; "en"; "index.html"],
     Bytes "<h1>Habana</h1>");
    (["intel-doc-build"; "_toctree.yml"], Toctree intel_toc);
    (["intel-doc-build"; "optimum.intel"; "main"; "en"; "installation.html"],
     Bytes "<h1>Intel</h1>");
    (["graphcore-doc-build"; "_toctree.yml"], Toctree graphcore_toc);
    (["graphcore-doc-build"; "optimum.graphcore"; "main"; "en";
      "quickstart.html"],
     Bytes "<h1>Graphcore</h1>") ].

Definition habana_entry : entry :=
  {| title := Some "Habana"; local := None;
     sections :=
       Some [ {| title := Some "🤗 Optimum Habana";
                 local := Some "habana/index";
                 sections := None; isExpanded := None |};
              {| title := Some "Tutorials"; local := None;
                 sections :=
                   Some [ {| title := Some "Overview";
                             local := Some "habana/tutorials/overview";
                             sections := None; isExpanded := None |} ];
                 isExpanded := Some false |} ];
     isExpanded := None |}.

Definition intel_entry : entry :=
  {| title := Some "Intel"; local := None;
     sections :=
       Some [ {| title := Some "Installation";
                 local := Some "intel/installation";
                 sections := None; isExpanded := None |} ];
     isExpanded := None |}.

(** ** Further vocabulary: the rewrite as a total function *)

(** The entries [rename_subpackage_toc] can be run on: an entry of the list
    has a [sections] key, and so has every entry of its [sections] that has
    no [local] key, recursively.  What lies below an entry with a [local]
    key is not looked at. *)
Fixpoint accepted (item : entry) : bool :=
  match item with
  | Entry _ _ None _ => false
  | Entry _ _ (Some files) _ =>
      forallb
        (fun file =>
           match local file with
           | Some _ => true
           | None => accepted file
           end)
        files
  end.

(** The entry [rename_subpackage_toc] leaves in place of an accepted one. *)
Fixpoint renamed (subpackage : string) (item : entry) : entry :=
  match item with
  | Entry t l secs x =>
      Entry t l
        (option_map
           (map (fun file =>
                   match local file with
                   | Some ref => set_local (prefixed subpackage ref) file
                   | None => renamed subpackage file
                   end))
           secs)
        x
  end.

(** What [renamed] does to one entry of a [sections] list. *)
Definition file_renamed (subpackage : string) (file : entry) : entry :=
  match local file with
  | Some ref => set_local (prefixed subpackage ref) file
  | None => renamed subpackage file
  end.

(** ** Further vocabulary: where the relocation writes *)

(** The path line 75 builds for [html_path], [None] where line 70 raises. *)
Definition new_path_in_optimum (subpackage : string) (optimum_path : path)
    (version : string) (html_path : path) : option path :=
  match nth_error html_path language_folder_level with
  | None => None
  | Some language_folder =>
      Some (optimum_path
              ++ ["optimum"; version; language_folder; subpackage]
              ++ skipn (language_folder_level + 1) html_path)
  end.

(** [q] is not [root] and not below it. *)
Definition outside (root q : path) : bool :=
  match Path.relative_to root q with
  | None => true
  | Some _ => false
  end.

(** Two file systems with the same files outside [root]: the same paths,
    enumerated in the same order, with the same contents. *)
Definition agree_outside (root : path) (fs fs' : filesystem) : Prop :=
  filter (outside root) (map fst fs') = filter (outside root) (map fst fs)
  /\ forall q, outside root q = true -> read q fs' = read q fs.

(** ** Further vocabulary: the iterations of the loop *)

(** Lines 132-139: what [relocate_and_rewrite] does once the files are
    relocated. *)
Definition load_and_rewrite (subpackage : string) : io (list entry) :=
  let subpackage_path := [(subpackage ++ "-doc-build")%string] in
  let* found := IO.rglob subpackage_path is_toctree in
  let* subpackage_toc_path := IO.lift (next found) in
  let* subpackage_toc := IO.load subpackage_toc_path in
  let* subpackage_toc :=
    IO.lift (rename_subpackage_toc subpackage subpackage_toc) in
  IO.lift (shorten_title subpackage_toc).

(** The entries one iteration of the loop inserts: one for ["neuron"], none
    for ["graphcore"], the first entry of its table of contents for any
    other subpackage. *)
Definition inserted_by (version subpackage : string) : io (list entry) :=
  if (subpackage =? "neuron")%string then
    IO.ret [neuron_entry]
  else
    let* subpackage_toc := relocate_and_rewrite version subpackage in
    if negb (subpackage =? "graphcore")%string then
      let* first := IO.lift (first_item subpackage_toc) in
      IO.ret [first]
    else
      IO.ret [].

(** The entries the iterations for [subpackages] insert, run in the order
    of the list. *)
Fixpoint inserted (version : string) (subpackages : list string)
  : io (list entry) :=
  match subpackages with
  | [] => IO.ret []
  | subpackage :: rest =>
      let* entries := inserted_by version subpackage in
      let* others := inserted version rest in
      IO.ret (entries ++ others)
  end.

(** ** Further vocabulary: names and file systems the script is meant for *)

Fixpoint has_slash (s : string) : bool :=
  match s with
  | EmptyString => false
  | String c s' => Ascii.eqb c "/" || has_slash s'
  end.

(** A string that [Path] reads as one plain component: not empty, neither
    [.] nor [..], and without [/].  For such a version and subpackage the
    f-strings of lines 75 and 122 are the paths of the model. *)
Definition is_component (s : string) : bool :=
  negb (s =? "")%string && negb (s =? ".")%string
  && negb (s =? "..")%string && negb (has_slash s).



(** ** Induction over entries and their [sections] *)

Section EntryInduction.

Variable P : entry -> Prop.

Hypothesis P_no_sections : forall t l x, P (Entry t l None x).

Hypothesis P_sections :
  forall t l files x, Forall P files -> P (Entry t l (Some files) x).

Fixpoint entry_nested_ind (e : entry) : P e :=
  match e with
  | Entry t l None x => P_no_sections t l x
  | Entry t l (Some files) x =>
      P_sections t l files x
        ((fix all (l : list entry) : Forall P l :=
            match l with
            | [] => Forall_nil P
            | f :: l' => Forall_cons f (entry_nested_ind f) (all l')
            end) files)
  end.

End EntryInduction.

(** * Properties *)

(** ** Strings *)

Module StrFacts.

Import Str.

Lemma append_length (s t : string) :
  String.length (s ++ t) = String.length s + String.length t.
Proof. induction s as [|a s IH]; simpl; [reflexivity | now rewrite IH]. Qed.

Lemma append_assoc (s t u : string) : ((s ++ t) ++ u = s ++ t ++ u)%string.
Proof. induction s as [|a s IH]; simpl; [reflexivity | now rewrite IH]. Qed.

Lemma take_drop (n : nat) (s : string) : (take n s ++ drop n s)%string = s.
Proof.
  revert s; induction n as [|n IH]; intros [|a s]; simpl; try reflexivity.
  now rewrite IH.
Qed.

Lemma take_length (n : nat) (s : string) :
  n <= String.length s -> String.length (take n s) = n.
Proof.
  revert s; induction n as [|n IH]; intros [|a s]; simpl; intros H;
    try reflexivity; try lia.
  rewrite IH; [reflexivity | lia].
Qed.

Lemma drop_length (n : nat) (s : string) :
  String.length (drop n s) = String.length s - n.
Proof.
  revert s; induction n as [|n IH]; intros [|a s]; simpl; try reflexivity.
  apply IH.
Qed.

Lemma drop_append (pre s : string) : drop (String.length pre) (pre ++ s) = s.
Proof. induction pre as [|a pre IH]; simpl; [reflexivity | exact IH]. Qed.

Lemma drop_drop (n m : nat) (s : string) : drop m (drop n s) = drop (n + m) s.
Proof.
  revert s; induction n as [|n IH]; intros s; simpl; [reflexivity|].
  destruct s as [|a s]; [now destruct m | apply IH].
Qed.

Lemma drop_all (n : nat) (s : string) :
  String.length s <= n -> drop n s = EmptyString.
Proof.
  revert s; induction n as [|n IH]; intros [|a s]; simpl; intros H;
    try reflexivity; try lia.
  apply IH; lia.
Qed.

Lemma startswith_iff (sep s : string) :
  startswith sep s = true <-> exists post, s = (sep ++ post)%string.
Proof.
  revert s; induction sep as [|a sep IH]; intros s; simpl.
  - split; [intros _; now exists s | reflexivity].
  - destruct s as [|b s].
    + split; [discriminate | intros [post H]; discriminate H].
    + rewrite andb_true_iff, Ascii.eqb_eq, IH. split.
      * intros [-> [post ->]]. now exists post.
      * intros [post H]. injection H as -> ->. split; [reflexivity|].
        now exists post.
Qed.

Lemma startswith_length (sep s : string) :
  startswith sep s = true -> String.length sep <= String.length s.
Proof.
  intros H. apply startswith_iff in H as [post ->].
  rewrite append_length. lia.
Qed.

(** The executable reading of [occurs_at]. *)
Lemma occurs_at_iff (sep s : string) (i : nat) :
  sep <> EmptyString ->
  occurs_at sep s i <-> startswith sep (drop i s) = true.
Proof.
  intros Hsep. split.
  - intros (pre & post & -> & <-). rewrite drop_append.
    apply startswith_iff. now exists post.
  - intros H. destruct (le_lt_dec i (String.length s)) as [Hi|Hi].
    + apply startswith_iff in H as [post H].
      exists (take i s), post. split.
      * rewrite <- H. symmetry. apply take_drop.
      * now apply take_length.
    + rewrite drop_all in H by lia.
      destruct sep; [now elim Hsep | discriminate H].
Qed.

Lemma find_some (sep s : string) (i : nat) :
  find sep s = Some i ->
  startswith sep (drop i s) = true
  /\ forall j, j < i -> startswith sep (drop j s) = false.
Proof.
  revert i; induction s as [|a s IH]; intros i; simpl find.
  - destruct (startswith sep EmptyString) eqn:E; [|discriminate].
    intros [= <-]. split; [exact E | intros j Hj; lia].
  - destruct (startswith sep (String a s)) eqn:E.
    + intros [= <-]. split; [exact E | intros j Hj; lia].
    + destruct (find sep s) as [k|]; [|discriminate].
      intros [= <-]. destruct (IH k eq_refl) as [H1 H2].
      split; [exact H1|]. intros [|j] Hj; [exact E | apply H2; lia].
Qed.

Lemma find_none (sep s : string) :
  find sep s = None -> forall j, startswith sep (drop j s) = false.
Proof.
  induction s as [|a s IH]; simpl find.
  - destruct (startswith sep EmptyString) eqn:E; [discriminate|].
    intros _ [|j]; exact E.
  - destruct (startswith sep (String a s)) eqn:E; [discriminate|].
    destruct (find sep s) as [k|]; [discriminate|].
    intros _ [|j]; [exact E | now apply IH].
Qed.

Lemma last_item_cons {A} (x : A) (l : list A) (v : A) :
  last_item l = Ok v -> last_item (x :: l) = Ok v.
Proof. destruct l; [discriminate | trivial]. Qed.

(** Where [sep] does not occur, [split] returns the text in one piece. *)
Lemma split_absent (sep s : string) :
  find sep s = None -> split sep s = [s].
Proof.
  unfold split. intros H.
  destruct (String.length s); simpl; now rewrite H.
Qed.

(** A separator that cannot overlap a copy of itself: every occurrence is
    met by the left-to-right scan of [split], the last one included. *)
Section LastPiece.

Variable sep : string.

Hypothesis sep_not_empty : sep <> EmptyString.

Hypothesis no_overlap :
  forall s i j,
    startswith sep (drop i s) = true ->
    startswith sep (drop j s) = true ->
    i < j -> i + String.length sep <= j.

Lemma sep_length_pos : 0 < String.length sep.
Proof. destruct sep; [now elim sep_not_empty | simpl; lia]. Qed.

Lemma occurrence_fits (s : string) (i : nat) :
  startswith sep (drop i s) = true ->
  i + String.length sep <= String.length s.
Proof.
  intros H. pose proof sep_length_pos as Hpos.
  destruct (le_lt_dec (String.length s) i) as [Hi|Hi].
  - rewrite drop_all in H by exact Hi.
    apply startswith_length in H. simpl in H. lia.
  - apply startswith_length in H. rewrite drop_length in H. lia.
Qed.

Lemma split_loop_not_empty (fuel : nat) (s : string) :
  split_loop fuel sep s <> [].
Proof.
  destruct fuel; simpl; destruct (find sep s); discriminate.
Qed.

(** The fuel of [split] is enough: more of it changes nothing. *)
Lemma split_loop_fuel (fuel : nat) :
  forall fuel' s,
    String.length s <= fuel -> String.length s <= fuel' ->
    split_loop fuel sep s = split_loop fuel' sep s.
Proof.
  pose proof sep_length_pos as Hpos.
  induction fuel as [|fuel IH]; intros fuel' s Hlen Hlen'.
  - destruct fuel'; simpl; destruct (find sep s) as [i|] eqn:Hfind;
      try reflexivity.
    destruct (find_some _ _ _ Hfind) as [Hi _].
    apply occurrence_fits in Hi. lia.
  - simpl. destruct (find sep s) as [i|] eqn:Hfind.
    2:{ destruct fuel'; simpl; now rewrite Hfind. }
    destruct (find_some _ _ _ Hfind) as [Hi _].
    apply occurrence_fits in Hi.
    destruct fuel' as [|fuel']; [lia|]. simpl. rewrite Hfind.
    f_equal. apply IH; rewrite drop_length; lia.
Qed.

(** The pieces of [split], joined by [sep], are the text. *)
Lemma split_loop_join (fuel : nat) :
  forall s, String.concat sep (split_loop fuel sep s) = s.
Proof.
  induction fuel as [|fuel IH]; intros s; simpl;
    destruct (find sep s) as [i|] eqn:Hfind; try reflexivity.
  destruct (find_some _ _ _ Hfind) as [Hi _].
  apply startswith_iff in Hi as [post Hi].
  pose proof (split_loop_not_empty fuel (drop (i + String.length sep) s))
    as Hne.
  cbn [String.concat].
  destruct (split_loop fuel sep (drop (i + String.length sep) s))
    as [|piece pieces] eqn:Hrest; [now elim Hne|].
  rewrite <- Hrest, IH, <- drop_drop, Hi, drop_append, <- Hi.
  apply take_drop.
Qed.

Lemma split_loop_last (fuel : nat) :
  forall s i,
    String.length s <= fuel ->
    startswith sep (drop i s) = true ->
    (forall j, startswith sep (drop j s) = true -> j <= i) ->
    last_item (split_loop fuel sep s) = Ok (drop (i + String.length sep) s).
Proof.
  pose proof sep_length_pos as Hpos.
  induction fuel as [|fuel IH]; intros s i Hlen Hocc Hlast.
  - apply occurrence_fits in Hocc. lia.
  - simpl. destruct (find sep s) as [p|] eqn:Hfind.
    2:{ rewrite (find_none _ _ Hfind i) in Hocc. discriminate Hocc. }
    destruct (find_some _ _ _ Hfind) as [Hp Hmin].
    pose proof (occurrence_fits _ _ Hp) as Hfit.
    assert (Hpi : p <= i) by (apply Hlast; exact Hp).
    apply last_item_cons.
    destruct (Nat.eq_dec p i) as [->|Hne].
    + (* the first occurrence is the last one: nothing left to cut *)
      destruct (find sep (drop (i + String.length sep) s)) as [q|] eqn:Hrest.
      * destruct (find_some _ _ _ Hrest) as [Hq _].
        rewrite drop_drop in Hq. apply Hlast in Hq. lia.
      * destruct fuel; simpl; now rewrite Hrest.
    + assert (Hgap : p + String.length sep <= i)
        by (apply (no_overlap s); [exact Hp | exact Hocc | lia]).
      rewrite (IH (drop (p + String.length sep) s)
                  (i - (p + String.length sep))).
      * rewrite drop_drop. f_equal. f_equal. lia.
      * rewrite drop_length. lia.
      * rewrite drop_drop.
        replace (p + String.length sep + (i - (p + String.length sep)))
          with i by lia.
        exact Hocc.
      * intros j Hj. rewrite drop_drop in Hj. apply Hlast in Hj. lia.
Qed.

Lemma split_last (s : string) (i : nat) :
  startswith sep (drop i s) = true ->
  (forall j, startswith sep (drop j s) = true -> j <= i) ->
  last_item (split sep s) = Ok (drop (i + String.length sep) s).
Proof. intros. now apply split_loop_last. Qed.

End LastPiece.

(** The literal of line 139 is such a separator: its first character
    occurs in it only once. *)
Lemma optimum_no_overlap (s : string) (i j : nat) :
  startswith "Optimum " (drop i s) = true ->
  startswith "Optimum " (drop j s) = true ->
  i < j -> i + String.length "Optimum " <= j.
Proof.
  intros Hi Hj Hlt.
  apply startswith_iff in Hi as [post Hi].
  replace j with (i + (j - i)) in Hj by lia.
  rewrite <- drop_drop, Hi in Hj.
  remember (j - i) as k eqn:Hk.
  assert (Hcases : k = 1 \/ k = 2 \/ k = 3 \/ k = 4 \/ k = 5 \/ k = 6
                   \/ k = 7 \/ 8 <= k) by lia.
  simpl String.length.
  destruct Hcases as [->|[->|[->|[->|[->|[->|[->|H]]]]]]];
    try (simpl in Hj; discriminate Hj).
  lia.
Qed.

Lemma optimum_not_empty : "Optimum "%string <> EmptyString.
Proof. discriminate. Qed.

(** Two checks by evaluation. *)
Lemma absent_by_scan (sep s : string) :
  sep <> EmptyString -> find sep s = None -> ~ contains sep s.
Proof.
  intros Hsep Hfind [i Hocc]. apply occurs_at_iff in Hocc; [|exact Hsep].
  rewrite (find_none _ _ Hfind i) in Hocc. discriminate Hocc.
Qed.

Lemma last_occurrence_by_scan (sep s : string) (i : nat) :
  sep <> EmptyString ->
  find sep (drop (S i) s) = None ->
  forall j, occurs_at sep s j -> j <= i.
Proof.
  intros Hsep Hfind j Hocc. apply occurs_at_iff in Hocc; [|exact Hsep].
  destruct (le_lt_dec j i) as [Hle|Hlt]; [exact Hle|].
  replace j with (S i + (j - S i)) in Hocc by lia.
  rewrite <- drop_drop, (find_none _ _ Hfind) in Hocc. discriminate Hocc.
Qed.

End StrFacts.

(** ** The rewrite of a table of contents *)

Lemma traverse_ok {A B} (body : A -> result B) (l : list A) (l' : list B) :
  traverse body l = Ok l' <-> Forall2 (fun x y => body x = Ok y) l l'.
Proof.
  revert l'; induction l as [|x l IH]; intros l'; simpl.
  - split; [intros [= <-]; constructor | intros H; now inversion H].
  - split.
    + destruct (body x) as [y|] eqn:Hx; [simpl | discriminate].
      destruct (traverse body l) as [ys|] eqn:Hl; [simpl | discriminate].
      intros [= <-]. constructor; [exact Hx | now apply IH].
    + intros H. inversion H as [|? y ? ys Hx Hl]; subst.
      apply IH in Hl. now rewrite Hx, Hl.
Qed.

Lemma rename_entry_eq (subpackage : string) (item : entry) :
  rename_entry subpackage item =
  let! files := getitem "sections" (sections item) in
  let! files' := traverse (rename_file subpackage) files in
  Ok (set_sections files' item).
Proof. destruct item as [t l [files|] x]; reflexivity. Qed.

(** The recursive call of line 35 is the rewrite of [file] alone. *)
Lemma rename_subpackage_toc_singleton (subpackage : string) (file : entry) :
  rename_subpackage_toc subpackage [file] =
  let! file' := rename_entry subpackage file in Ok [file'].
Proof.
  unfold rename_subpackage_toc. simpl.
  now destruct (rename_entry subpackage file).
Qed.

Lemma rename_entry_references (subpackage : string) (item : entry) :
  leaf_xor_internal item = true ->
  is_internal item = true ->
  exists item',
    rename_entry subpackage item = Ok item'
    /\ references item' = map (prefixed subpackage) (references item).
Proof.
  induction item as [t l x | t l files x IH] using entry_nested_ind;
    intros Hshape Hint.
  - discriminate Hint.
  - destruct l as [ref|]; [discriminate Hshape|]. simpl in Hshape.
    rewrite rename_entry_eq. simpl.
    assert (Hfiles : exists files',
               traverse (rename_file subpackage) files = Ok files'
               /\ flat_map references files'
                  = map (prefixed subpackage) (flat_map references files)).
    { clear Hint. induction files as [|file files IHfiles].
      - exists []. now split.
      - simpl in Hshape. apply andb_true_iff in Hshape as [Hfile Hrest].
        inversion IH as [|? ? IHfile IHrest]; subst.
        destruct (IHfiles IHrest Hrest) as (files' & Hfiles' & Hrefs).
        assert (Hone : exists file',
                   rename_file subpackage file = Ok file'
                   /\ references file'
                      = map (prefixed subpackage) (references file)).
        { unfold rename_file.
          destruct file as [ft [fref|] [fsecs|] fx]; try discriminate Hfile.
          - eexists. split; reflexivity.
          - now apply IHfile. }
        destruct Hone as (file' & Hfile' & Hrefs').
        exists (file' :: files'). simpl. rewrite Hfile', Hfiles'. simpl.
        split; [reflexivity|]. now rewrite Hrefs', Hrefs, map_app. }
    destruct Hfiles as (files' & -> & Hrefs). simpl.
    eexists. split; [reflexivity|]. exact Hrefs.
Qed.

Lemma rename_entry_skeleton (subpackage : string) (item item' : entry) :
  rename_entry subpackage item = Ok item' -> skeleton item' = skeleton item.
Proof.
  revert item'.
  induction item as [t l x | t l files x IH] using entry_nested_ind;
    intros item'.
  - discriminate.
  - rewrite rename_entry_eq. simpl.
    destruct (traverse (rename_file subpackage) files) as [files'|] eqn:Hfiles;
      [simpl | discriminate].
    intros [= <-]. simpl. do 2 f_equal.
    apply traverse_ok in Hfiles.
    induction Hfiles as [|file file' files files' Hfile Hfiles IHfiles].
    + reflexivity.
    + inversion IH as [|? ? IHfile IHrest]; subst. simpl.
      f_equal; [|now apply IHfiles].
      unfold rename_file in Hfile. destruct (local file) as [ref|] eqn:Hloc.
      * injection Hfile as <-. destruct file as [ft fl fs fx].
        simpl in Hloc. subst fl. reflexivity.
      * now apply IHfile.
Qed.

(** C2, as stated, fails: the entries of the list handed to
    [rename_subpackage_toc] are indexed with ["sections"] before anything is
    looked at, so a list whose entry is a leaf raises [KeyError] and its
    reference stays without prefix. *)
Lemma rename_rejects_top_level_leaf :
  forallb leaf_xor_internal [home] = true
  /\ rename_subpackage_toc "acme" [home] = Err (KeyError "sections")
  /\ ~ exists toc',
        rename_subpackage_toc "acme" [home] = Ok toc'
        /\ flat_map references toc'
           = map (prefixed "acme") (flat_map references [home]).
Proof.
  split; [reflexivity|]. split; [reflexivity|].
  intros (toc' & H & _). discriminate H.
Qed.

(** C2, amended: on a table of contents whose nodes are each a leaf or an
    internal node, never both, and whose top-level entries are internal
    nodes, [rename_subpackage_toc] succeeds, and the references of the
    leaves of the result are, leaf by leaf, those of the input with
    ["<subpackage>/"] put in front once: none is skipped, none gets the
    prefix twice. *)
Theorem rename_prefixes_every_leaf_once :
  forall (subpackage : string) (toc : list entry),
    forallb leaf_xor_internal toc = true ->
    forallb is_internal toc = true ->
    exists toc',
      rename_subpackage_toc subpackage toc = Ok toc'
      /\ flat_map references toc'
         = map (prefixed subpackage) (flat_map references toc).
Proof.
  intros subpackage toc. unfold rename_subpackage_toc.
  induction toc as [|item toc IH]; simpl; intros Hshape Hint.
  - exists []. now split.
  - apply andb_true_iff in Hshape as [Hitem Hshape].
    apply andb_true_iff in Hint as [Hitem' Hint].
    destruct (rename_entry_references subpackage item Hitem Hitem')
      as (item' & -> & Hrefs).
    destruct (IH Hshape Hint) as (toc' & -> & Hrefs').
    exists (item' :: toc'). simpl. split; [reflexivity|].
    now rewrite Hrefs, Hrefs', map_app.
Qed.

Lemma rename_prefixes_every_leaf_once_witness :
  forallb leaf_xor_internal acme_toc = true
  /\ forallb is_internal acme_toc = true
  /\ exists toc',
       rename_subpackage_toc "acme" acme_toc = Ok toc'
       /\ flat_map references toc'
          = map (prefixed "acme") (flat_map references acme_toc).
Proof.
  split; [reflexivity|]. split; [reflexivity|].
  apply (rename_prefixes_every_leaf_once "acme" acme_toc); reflexivity.
Defined.

Lemma rename_chain (subpackage : string) (t : option string) (ref : string)
    (x : option bool) (above : list (option string * option bool)) :
  forall outer,
    rename_entry subpackage (chain (outer :: above) (Entry t (Some ref) None x))
    = Ok (chain (outer :: above)
                (Entry t (Some (prefixed subpackage ref)) None x)).
Proof.
  induction above as [|next above IH]; intros [t' x'].
  - reflexivity.
  - rewrite rename_entry_eq.
    change (sections (chain ((t', x') :: next :: above) ?leaf))
      with (Some [chain (next :: above) leaf]).
    cbn [getitem Result.of_option Result.bind traverse].
    assert (Hfile : forall leaf,
               rename_file subpackage (chain (next :: above) leaf)
               = rename_entry subpackage (chain (next :: above) leaf))
      by (intros leaf; destruct next; reflexivity).
    rewrite Hfile, IH. reflexivity.
Qed.

(** C3, as stated, fails at depth 1: a chain of depth 1 is a top-level
    leaf, and [rename_subpackage_toc] raises [KeyError] on it. *)
Lemma rename_rejects_chain_of_depth_1 :
  chain_depth [] = 1
  /\ chain [] home = home
  /\ rename_subpackage_toc "acme" [chain [] home] = Err (KeyError "sections").
Proof. repeat split. Qed.

(** C3, amended: for every depth [d >= 2], [rename_subpackage_toc] applied
    to the single chain of depth [d] ending in one leaf returns the same
    chain with ["<subpackage>/"] put once in front of the reference of the
    leaf. *)
Theorem rename_prefixes_chain_leaf_once :
  forall (subpackage : string) (above : list (option string * option bool))
         (t : option string) (ref : string) (x : option bool),
    2 <= chain_depth above ->
    rename_subpackage_toc subpackage [chain above (Entry t (Some ref) None x)]
    = Ok [chain above (Entry t (Some (subpackage ++ "/" ++ ref)%string) None x)].
Proof.
  intros subpackage above t ref x Hdepth.
  destruct above as [|outer above]; [unfold chain_depth in Hdepth; simpl in Hdepth; lia|].
  rewrite rename_subpackage_toc_singleton, rename_chain. reflexivity.
Qed.

Lemma rename_prefixes_chain_leaf_once_witness :
  2 <= chain_depth [(Some "Optimum Acme", None); (Some "Guides", Some true)]
  /\ rename_subpackage_toc "acme"
       [chain [(Some "Optimum Acme", None); (Some "Guides", Some true)] intro]
     = Ok [chain [(Some "Optimum Acme", None); (Some "Guides", Some true)]
                 (Entry (Some "Intro") (Some "acme/intro") None None)].
Proof.
  split; [unfold chain_depth; simpl; lia|].
  apply (rename_prefixes_chain_leaf_once "acme"
           [(Some "Optimum Acme", None); (Some "Guides", Some true)]
           (Some "Intro") "intro" None).
  unfold chain_depth; simpl; lia.
Defined.

(** C9: whenever [rename_subpackage_toc] accepts a table of contents, the
    result differs from the input in the text of [local] references only:
    entry by entry the [title], the [isExpanded] flag, the keys present, the
    number of [sections] and the nesting are the same. *)
Theorem rename_changes_references_only :
  forall (subpackage : string) (toc toc' : list entry),
    rename_subpackage_toc subpackage toc = Ok toc' ->
    map skeleton toc' = map skeleton toc.
Proof.
  intros subpackage toc toc' H. apply traverse_ok in H.
  induction H as [|item item' toc toc' Hitem _ IH]; simpl.
  - reflexivity.
  - f_equal; [|exact IH]. now apply rename_entry_skeleton with subpackage.
Qed.

Lemma rename_changes_references_only_witness :
  rename_subpackage_toc "acme" acme_toc
  = Ok [set_title "Optimum Acme" acme_entry]
  /\ map skeleton [set_title "Optimum Acme" acme_entry] = map skeleton acme_toc.
Proof.
  split; [reflexivity|].
  apply (rename_changes_references_only "acme" acme_toc); reflexivity.
Defined.

(** ** The title of the inserted entry *)

(** C5: when the title of the first top-level entry is
    [pre ++ "Optimum " ++ post] and this occurrence of ["Optimum "] is the
    last one of the title, line 139 replaces the title by [post], the text
    behind that occurrence; the entry is otherwise the same. *)
Theorem shorten_title_keeps_text_after_last_occurrence :
  forall (first : entry) (rest : list entry) (pre post : string),
    title first = Some (pre ++ "Optimum " ++ post)%string ->
    (forall j, occurs_at "Optimum " (pre ++ "Optimum " ++ post) j ->
               j <= String.length pre) ->
    shorten_title (first :: rest) = Ok (set_title post first :: rest).
Proof.
  intros first rest pre post Htitle Hlast.
  unfold shorten_title. cbn [first_item Result.bind tl].
  rewrite Htitle. cbn [getitem Result.of_option Result.bind].
  rewrite (StrFacts.split_last "Optimum " StrFacts.optimum_not_empty
             StrFacts.optimum_no_overlap _ (String.length pre)).
  - rewrite <- StrFacts.drop_drop, StrFacts.drop_append.
    rewrite (StrFacts.drop_append "Optimum " post). reflexivity.
  - apply StrFacts.occurs_at_iff; [discriminate|].
    now exists pre, post.
  - intros j Hj. apply Hlast.
    apply StrFacts.occurs_at_iff; [discriminate | exact Hj].
Qed.

Lemma shorten_title_keeps_text_after_last_occurrence_witness :
  shorten_title
    [Entry (Some "Optimum for Optimum Habana") None (Some [intro]) None]
  = Ok [Entry (Some "Habana") None (Some [intro]) None].
Proof.
  apply (shorten_title_keeps_text_after_last_occurrence
           (Entry (Some "Optimum for Optimum Habana") None (Some [intro]) None)
           [] "Optimum for " "Habana").
  - reflexivity.
  - apply StrFacts.last_occurrence_by_scan; [discriminate | reflexivity].
Defined.

(** C10: when the title of the first top-level entry does not contain
    ["Optimum "], line 139 succeeds and leaves the table of contents, that
    title included, as it was. *)
Theorem shorten_title_without_optimum_is_identity :
  forall (first : entry) (rest : list entry) (full : string),
    title first = Some full ->
    ~ contains "Optimum " full ->
    shorten_title (first :: rest) = Ok (first :: rest).
Proof.
  intros first rest full Htitle Habsent.
  unfold shorten_title. cbn [first_item Result.bind tl].
  rewrite Htitle. cbn [getitem Result.of_option Result.bind].
  destruct (Str.find "Optimum " full) as [i|] eqn:Hfind.
  - elim Habsent. exists i.
    apply StrFacts.occurs_at_iff; [discriminate|].
    now destruct (StrFacts.find_some _ _ _ Hfind).
  - rewrite (StrFacts.split_absent _ _ Hfind). cbn [last_item Result.bind].
    destruct first as [t l secs x]. simpl in Htitle. now subst t.
Qed.

Lemma shorten_title_without_optimum_is_identity_witness :
  shorten_title [Entry (Some "Habana Gaudi") None (Some [intro]) None]
  = Ok [Entry (Some "Habana Gaudi") None (Some [intro]) None].
Proof.
  apply (shorten_title_without_optimum_is_identity
           (Entry (Some "Habana Gaudi") None (Some [intro]) None)
           [] "Habana Gaudi").
  - reflexivity.
  - apply StrFacts.absent_by_scan; [discriminate | reflexivity].
Defined.

(** ** The file system *)

Module FsFacts.

Lemma path_eqb_eq (p q : path) : Path.eqb p q = true <-> p = q.
Proof.
  revert q; induction p as [|a p IH]; intros [|b q]; simpl;
    try (split; [discriminate | intros [=]]); [tauto|].
  rewrite andb_true_iff, String.eqb_eq, IH.
  split; [intros [-> ->]; reflexivity | intros [= -> ->]; now split].
Qed.

Lemma read_listed (p : path) (fs : filesystem) :
  In p (map fst fs) -> exists c, read p fs = Some c.
Proof.
  induction fs as [|[q c] fs IH]; simpl; [tauto|].
  intros H. destruct (Path.eqb p q) eqn:E; [now exists c|].
  destruct H as [->|H]; [|now apply IH].
  assert (Path.eqb p p = true) by now apply path_eqb_eq.
  congruence.
Qed.

Lemma write_keeps_listed (p q : path) (c : content) (fs : filesystem) :
  In p (map fst fs) -> In p (map fst (write q c fs)).
Proof.
  induction fs as [|[r c'] fs IH]; simpl; [tauto|].
  destruct (Path.eqb q r); simpl; intros [H|H]; auto.
Qed.

Lemma rglob_listed (root : path) (pattern : string -> bool) (fs : filesystem)
    (p : path) :
  In p (Path.rglob root pattern fs) -> In p (map fst fs).
Proof. unfold Path.rglob. intros H. now apply filter_In in H. Qed.




(** Loading and rewriting the table of contents reads the file system:
    what [relocate_and_rewrite] leaves on disk is what the relocation
    leaves. *)
Lemma relocate_and_rewrite_files (version subpackage : string)
    (fs : filesystem) :
  fst (relocate_and_rewrite version subpackage fs)
  = fst (rename_copy_subpackage_html_paths
           subpackage [(subpackage ++ "-doc-build")%string] optimum_path
           version fs).
Proof.
  unfold relocate_and_rewrite, IO.bind at 1.
  destruct (rename_copy_subpackage_html_paths _ _ _ _ fs) as [fs1 [[]|e]];
    [|reflexivity].
  unfold IO.bind, IO.rglob, IO.lift, IO.load. simpl fst.
  destruct (next _) as [toc_path|]; [|reflexivity].
  destruct (read toc_path fs1) as [[data|toc]|]; try reflexivity.
  destruct (rename_subpackage_toc subpackage toc); reflexivity.
Qed.

End FsFacts.

(** ** The relocation of the HTML files *)



(** ** The loop of [main] *)

(** C6: the iteration for ["neuron"] leaves the file system as it is (no
    file is relocated) and inserts one entry at index 1 of the parent table
    of contents, directly behind its first entry: the entry titled
    ["AWS Trainium/Inferentia"], with [isExpanded] false, whose [sections]
    are a single leaf with [local] ["docs/optimum-neuron/index"]. *)
Theorem neuron_inserts_redirect_entry :
  forall (version : string) (base_toc : list entry) (first : entry)
         (rest : list entry) (fs : filesystem),
    process version "neuron" base_toc fs
    = (fs, Ok (insert 1 neuron_entry base_toc))
    /\ List.length (insert 1 neuron_entry base_toc)
       = S (List.length base_toc)
    /\ process version "neuron" (first :: rest) fs
       = (fs, Ok (first :: neuron_entry :: rest))
    /\ title neuron_entry = Some "AWS Trainium/Inferentia"
    /\ isExpanded neuron_entry = Some false
    /\ exists child,
         sections neuron_entry = Some [child]
         /\ local child = Some "docs/optimum-neuron/index"
         /\ sections child = None.
Proof.
  intros version base_toc first rest fs. repeat split.
  - destruct base_toc as [|e [|e' l]]; reflexivity.
  - eexists. repeat split.
Qed.

(** The iteration for ["graphcore"]: the file system it leaves is the one
    the relocation leaves, and its value is the parent table of contents it
    started from unless the subpackage raises. *)
Lemma graphcore_iteration_outcome :
  forall (version : string) (base_toc : list entry) (fs : filesystem),
    fst (process version "graphcore" base_toc fs)
    = fst (rename_copy_subpackage_html_paths
             "graphcore" ["graphcore-doc-build"] optimum_path version fs)
    /\ snd (process version "graphcore" base_toc fs)
       = match snd (relocate_and_rewrite version "graphcore" fs) with
         | Ok _ => Ok base_toc
         | Err e => Err e
         end.
Proof.
  intros version base_toc fs.
  change ["graphcore-doc-build"]
    with [("graphcore" ++ "-doc-build")%string].
  rewrite <- (FsFacts.relocate_and_rewrite_files version "graphcore" fs).
  unfold process.
  change ("graphcore" =? "neuron")%string with false.
  change (negb ("graphcore" =? "graphcore")%string) with false.
  cbv iota. unfold IO.bind at 1 2.
  destruct (relocate_and_rewrite version "graphcore" fs) as [fs1 [toc|e]];
    split; reflexivity.
Qed.

(** The iteration for a subpackage that is neither ["neuron"] nor
    ["graphcore"]. *)
Lemma process_standard {version subpackage : string}
    (base_toc : list entry) {fs fs' : filesystem} {first : entry}
    {others : list entry} :
  subpackage <> "neuron"%string ->
  subpackage <> "graphcore"%string ->
  relocate_and_rewrite version subpackage fs = (fs', Ok (first :: others)) ->
  process version subpackage base_toc fs
  = (fs', Ok (insert 1 first base_toc)).
Proof.
  intros Hneuron Hgraphcore Hrun. unfold process.
  apply String.eqb_neq in Hneuron, Hgraphcore.
  rewrite Hneuron, Hgraphcore. simpl negb. cbv iota.
  unfold IO.bind at 1. rewrite Hrun. reflexivity.
Qed.

(** The loop over any list of standard subpackages: every entry goes in
    directly behind the first entry of the parent, so the entries end up in
    the reverse of the order in which the loop met them. *)
Lemma for_each_standard_subpackage (version : string)
    (subpackages : list string) (first : entry) :
  Forall standard subpackages ->
  forall (rest : list entry) (fs : filesystem),
    for_each_subpackage version subpackages (first :: rest) fs
    = (let* entries := first_entries version subpackages in
       IO.ret (first :: rev entries ++ rest)) fs.
Proof.
  induction 1 as [|subpackage subpackages [Hn Hg] _ IH]; intros rest fs.
  - reflexivity.
  - cbn [for_each_subpackage first_entries]. unfold process.
    apply String.eqb_neq in Hn, Hg. rewrite Hn, Hg. simpl negb. cbv iota.
    unfold IO.bind at 1 2.
    unfold IO.bind at 2 3.
    destruct (relocate_and_rewrite version subpackage fs)
      as [fs1 [[|e toc]|err]]; try reflexivity.
    unfold IO.bind, IO.lift, IO.ret, first_item.
    cbn [insert firstn skipn app]. rewrite IH. unfold IO.bind, IO.ret.
    destruct (first_entries version subpackages fs1) as [fs2 [entries|err]];
      [|reflexivity].
    cbn [rev]. now rewrite <- app_assoc.
Qed.

(** C1: for subpackages [A], [B], [C], none of them ["neuron"] or
    ["graphcore"], each relocated and rewritten without an exception (in the
    order [C], [B], [A] of the loop) to a table of contents with first
    entry [eC], [eB], [eA], the loop over [[A; B; C]] turns the parent table
    of contents [first :: rest] into [first :: eA :: eB :: eC :: rest]: the
    new entries follow the first entry in the order of the caller. *)
Theorem main_loop_keeps_caller_order :
  forall (version A B C : string) (first : entry) (rest : list entry)
         (fs0 fs1 fs2 fs3 : filesystem) (eA eB eC : entry)
         (tA tB tC : list entry),
    standard A -> standard B -> standard C ->
    relocate_and_rewrite version C fs0 = (fs1, Ok (eC :: tC)) ->
    relocate_and_rewrite version B fs1 = (fs2, Ok (eB :: tB)) ->
    relocate_and_rewrite version A fs2 = (fs3, Ok (eA :: tA)) ->
    main_loop version [A; B; C] (first :: rest) fs0
    = (fs3, Ok (first :: eA :: eB :: eC :: rest)).
Proof.
  intros version A B C first rest fs0 fs1 fs2 fs3 eA eB eC tA tB tC
         [HAn HAg] [HBn HBg] [HCn HCg] HC HB HA.
  unfold main_loop. cbn [rev app for_each_subpackage].
  unfold IO.bind at 1.
  rewrite (process_standard (first :: rest) HCn HCg HC).
  unfold IO.bind at 1.
  rewrite (process_standard _ HBn HBg HB).
  unfold IO.bind at 1.
  rewrite (process_standard _ HAn HAg HA).
  reflexivity.
Qed.

Lemma main_loop_keeps_caller_order_witness :
  exists fs,
    main_loop "main" ["habana"; "acme"; "intel"] [home; intro]
              (partner_files ++ acme_files)
    = (fs, Ok [home; habana_entry; acme_entry; intel_entry; intro]).
Proof.
  eexists.
  eapply (main_loop_keeps_caller_order
            "main" "habana" "acme" "intel" home [intro]);
    try (split; discriminate); vm_compute; reflexivity.
Defined.

(** The iteration for ["graphcore"] on a well-formed build: the page is
    copied below Optimum's build and the parent table of contents is
    returned unchanged. *)
Example graphcore_iteration :
  snd (process "main" "graphcore" [home; intro] partner_files)
  = Ok [home; intro]
  /\ read ["optimum-doc-build"; "optimum"; "main"; "en"; "graphcore";
            "quickstart.html"]
          (fst (process "main" "graphcore" [home; intro] partner_files))
     = Some (Bytes "<h1>Graphcore</h1>").
Proof. split; vm_compute; reflexivity. Qed.

(** C4: with the parent table of contents [[home]] and the table of
    contents [acme_toc] of the subpackage ["acme"], the rewrite, the
    shortening of the title and the insertion at index 1 give exactly
    [[home; acme_entry]]; run from the files on disk, [main] writes that
    table of contents to Optimum's [_toctree.yml]. *)
Theorem acme_scenario :
  (let! toc := rename_subpackage_toc "acme" acme_toc in
   let! toc := shorten_title toc in
   let! first := first_item toc in
   Ok (insert 1 first [home]))
  = Ok [home; acme_entry]
  /\ snd (process "main" "acme" [home] acme_files) = Ok [home; acme_entry]
  /\ snd (main ["acme"] "main" acme_files) = Ok tt
  /\ read ["optimum-doc-build"; "_toctree.yml"]
          (fst (main ["acme"] "main" acme_files))
     = Some (Toctree [home; acme_entry]).
Proof. repeat split; vm_compute; reflexivity. Qed.

(** * Further properties *)

(** ** The rewrite: when it runs, what it raises, how it composes *)

Module RenameFacts.

Lemma traverse_map {A B} (body : A -> result B) (g : A -> B) (l : list A) :
  Forall (fun x => body x = Ok (g x)) l -> traverse body l = Ok (map g l).
Proof.
  induction 1 as [|x l Hx _ IH]; simpl; [reflexivity|].
  now rewrite Hx, IH.
Qed.

Lemma traverse_err {A B} (body : A -> result B) (l : list A) (e : error) :
  traverse body l = Err e -> exists x, In x l /\ body x = Err e.
Proof.
  induction l as [|x l IH]; simpl; [discriminate|].
  destruct (body x) as [y|e'] eqn:Hx; simpl.
  - destruct (traverse body l) as [ys|e'']; simpl; [discriminate|].
    intros [= <-]. destruct (IH eq_refl) as (x' & Hin & Hx').
    exists x'. auto.
  - intros [= <-]. exists x. auto.
Qed.

Lemma rename_entry_accepted (subpackage : string) (item : entry) :
  accepted item = true ->
  rename_entry subpackage item = Ok (renamed subpackage item).
Proof.
  induction item as [t l x | t l files x IH] using entry_nested_ind;
    intros Hacc; [discriminate Hacc|].
  rewrite rename_entry_eq. cbn [sections getitem Result.of_option Result.bind].
  rewrite (traverse_map _ (file_renamed subpackage)); [reflexivity|].
  simpl in Hacc. rewrite forallb_forall in Hacc.
  rewrite Forall_forall in IH |- *. intros file Hin.
  specialize (Hacc file Hin). unfold rename_file, file_renamed.
  destruct (local file); [reflexivity | now apply IH].
Qed.

Lemma rename_entry_ok (subpackage : string) (item item' : entry) :
  rename_entry subpackage item = Ok item' -> accepted item = true.
Proof.
  revert item'.
  induction item as [t l x | t l files x IH] using entry_nested_ind;
    intros item'; [discriminate|].
  rewrite rename_entry_eq. cbn [sections getitem Result.of_option Result.bind].
  destruct (traverse (rename_file subpackage) files) as [files'|] eqn:Hfiles;
    [intros _ | discriminate].
  apply traverse_ok in Hfiles. simpl.
  induction Hfiles as [|file file' files files' Hfile _ IHfiles];
    [reflexivity|].
  inversion IH as [|? ? IHfile IHrest]; subst. simpl.
  rewrite (IHfiles IHrest), andb_true_r.
  unfold rename_file in Hfile. destruct (local file); [reflexivity|].
  now apply IHfile with file'.
Qed.

Lemma rename_entry_err (subpackage : string) (item : entry) (e : error) :
  rename_entry subpackage item = Err e -> e = KeyError "sections".
Proof.
  induction item as [t l x | t l files x IH] using entry_nested_ind.
  - now intros [= <-].
  - rewrite rename_entry_eq.
    cbn [sections getitem Result.of_option Result.bind].
    destruct (traverse (rename_file subpackage) files) as [files'|e'] eqn:Hfiles;
      [discriminate|].
    intros [= <-]. apply traverse_err in Hfiles as (file & Hin & Hfile).
    rewrite Forall_forall in IH. unfold rename_file in Hfile.
    destruct (local file); [discriminate | now apply (IH file)].
Qed.

Lemma renamed_accepted (subpackage : string) (item : entry) :
  accepted (renamed subpackage item) = accepted item.
Proof.
  induction item as [t l x | t l files x IH] using entry_nested_ind;
    [reflexivity|].
  simpl. induction IH as [|file files Hfile _ IHfiles]; [reflexivity|].
  simpl. rewrite IHfiles. f_equal.
  destruct file as [ft [ref|] fs fx]; [reflexivity | exact Hfile].
Qed.

Lemma prefixed_prefixed (outer inner ref : string) :
  prefixed outer (prefixed inner ref)
  = prefixed (outer ++ "/" ++ inner)%string ref.
Proof.
  unfold prefixed. rewrite (StrFacts.append_assoc outer). reflexivity.
Qed.

Lemma renamed_renamed (outer inner : string) (item : entry) :
  renamed outer (renamed inner item)
  = renamed (outer ++ "/" ++ inner)%string item.
Proof.
  induction item as [t l x | t l files x IH] using entry_nested_ind;
    [reflexivity|].
  simpl. do 2 f_equal. rewrite map_map.
  induction IH as [|file files Hfile _ IHfiles]; [reflexivity|].
  simpl. rewrite IHfiles. f_equal.
  destruct file as [ft [ref|] fs fx].
  - unfold set_local. simpl. now rewrite prefixed_prefixed.
  - exact Hfile.
Qed.

Lemma rename_toc_accepted (subpackage : string) (toc : list entry) :
  forallb accepted toc = true ->
  rename_subpackage_toc subpackage toc = Ok (map (renamed subpackage) toc).
Proof.
  intros Hacc. apply traverse_map. rewrite forallb_forall in Hacc.
  apply Forall_forall. intros item Hin.
  now apply rename_entry_accepted, Hacc.
Qed.

Lemma rename_toc_ok (subpackage : string) (toc toc' : list entry) :
  rename_subpackage_toc subpackage toc = Ok toc' ->
  forallb accepted toc = true.
Proof.
  intros H. apply traverse_ok in H.
  induction H as [|item item' toc toc' Hitem _ IH]; [reflexivity|].
  simpl. now rewrite (rename_entry_ok _ _ _ Hitem), IH.
Qed.

Lemma rename_toc_err (subpackage : string) (toc : list entry) (e : error) :
  rename_subpackage_toc subpackage toc = Err e -> e = KeyError "sections".
Proof.
  intros H. apply traverse_err in H as (item & _ & Hitem).
  now apply rename_entry_err in Hitem.
Qed.

End RenameFacts.

(** X2: when [rename_subpackage_toc] returns, every entry of the list it
    was given has a [sections] key, and so has, recursively, every entry of
    a [sections] list that has no [local] key: on any other table of
    contents it raises. *)
Theorem rename_returns_only_on_accepted :
  forall (subpackage : string) (toc toc' : list entry),
    rename_subpackage_toc subpackage toc = Ok toc' ->
    forallb accepted toc = true.
Proof. exact RenameFacts.rename_toc_ok. Qed.

Lemma rename_returns_only_on_accepted_witness :
  forallb accepted habana_toc = true.
Proof.
  apply (rename_returns_only_on_accepted
           "habana" habana_toc
           [set_title "Optimum Habana" habana_entry]).
  reflexivity.
Defined.

(** X3: rewriting for [inner] and then rewriting the result for [outer] is
    one rewrite for ["<outer>/<inner>"], exceptions included: the rewrite is
    not idempotent, each run puts one more folder in front. *)
Theorem rename_twice_joins_prefixes :
  forall (outer inner : string) (toc : list entry),
    (let! toc' := rename_subpackage_toc inner toc in
     rename_subpackage_toc outer toc')
    = rename_subpackage_toc (outer ++ "/" ++ inner)%string toc.
Proof.
  intros outer inner toc. destruct (forallb accepted toc) eqn:Hacc.
  - rewrite !RenameFacts.rename_toc_accepted; try exact Hacc.
    + cbn [Result.bind]. rewrite RenameFacts.rename_toc_accepted.
      * rewrite map_map. f_equal. apply map_ext.
        intros item. apply RenameFacts.renamed_renamed.
      * rewrite forallb_forall in Hacc |- *. intros item Hin.
        apply in_map_iff in Hin as (item0 & <- & Hin).
        rewrite RenameFacts.renamed_accepted. now apply Hacc.
  - destruct (rename_subpackage_toc inner toc) as [toc'|e] eqn:Hin.
    { apply RenameFacts.rename_toc_ok in Hin. congruence. }
    destruct (rename_subpackage_toc (outer ++ "/" ++ inner) toc)
      as [toc'|e'] eqn:Hout.
    { apply RenameFacts.rename_toc_ok in Hout. congruence. }
    apply RenameFacts.rename_toc_err in Hin, Hout. now subst.
Qed.

(** X4: [rename_subpackage_toc] never touches the [local] key of the
    entries of the list it is given, whether they have one or not: only
    entries inside a [sections] list get the prefix. *)
Theorem rename_keeps_top_level_local :
  forall (subpackage : string) (toc toc' : list entry),
    rename_subpackage_toc subpackage toc = Ok toc' ->
    map local toc' = map local toc.
Proof.
  intros subpackage toc toc' H.
  pose proof (RenameFacts.rename_toc_ok _ _ _ H) as Hacc.
  rewrite (RenameFacts.rename_toc_accepted subpackage _ Hacc) in H.
  injection H as <-. rewrite map_map. apply map_ext.
  now intros [t l secs x].
Qed.

Lemma rename_keeps_top_level_local_witness :
  map local
      [Entry (Some "Optimum Acme") (Some "overview") (Some [intro]) None]
  = [Some "overview"].
Proof.
  apply (rename_keeps_top_level_local "acme"
           [Entry (Some "Optimum Acme") (Some "overview") (Some [intro]) None]
           [Entry (Some "Optimum Acme") (Some "overview")
                  (Some [set_local "acme/intro" intro]) None]).
  reflexivity.
Defined.

(** X5: inside a [sections] list, an entry with a [local] key gets the
    prefix and is otherwise left as it is: should it have [sections] of its
    own, they are not visited and their references stay without prefix. *)
Theorem rename_skips_below_local :
  forall (subpackage : string) (t l : option string) (x : option bool)
         (files : list entry) (toc' : list entry),
    rename_subpackage_toc subpackage [Entry t l (Some files) x] = Ok toc' ->
    exists files',
      toc' = [Entry t l (Some files') x]
      /\ Forall2
           (fun file file' =>
              forall ref, local file = Some ref ->
                          file' = set_local (prefixed subpackage ref) file)
           files files'.
Proof.
  intros subpackage t l x files toc' H.
  pose proof (RenameFacts.rename_toc_ok _ _ _ H) as Hacc.
  rewrite (RenameFacts.rename_toc_accepted subpackage _ Hacc) in H.
  injection H as <-. eexists. split; [reflexivity|].
  clear Hacc. induction files as [|file files IH]; constructor; [|exact IH].
  intros ref Href. now rewrite Href.
Qed.

Lemma rename_skips_below_local_witness :
  exists files',
    [Entry (Some "Optimum Acme") None
           (Some [Entry (Some "Guides") (Some "acme/guides")
                        (Some [intro]) None]) None]
    = [Entry (Some "Optimum Acme") None (Some files') None]
    /\ Forall2
         (fun file file' =>
            forall ref, local file = Some ref ->
                        file' = set_local (prefixed "acme" ref) file)
         [Entry (Some "Guides") (Some "guides") (Some [intro]) None] files'.
Proof.
  apply (rename_skips_below_local "acme" (Some "Optimum Acme") None None
           [Entry (Some "Guides") (Some "guides") (Some [intro]) None]).
  reflexivity.
Defined.

(** ** The shortened title *)

Module SplitFacts.

Import Str.

Lemma not_empty_length (sep : string) :
  sep <> EmptyString -> 0 < String.length sep.
Proof. destruct sep; [congruence | simpl; lia]. Qed.

Lemma found_fits (sep s : string) (i : nat) :
  sep <> EmptyString ->
  startswith sep (drop i s) = true ->
  i + String.length sep <= String.length s.
Proof.
  intros Hsep H. pose proof (not_empty_length sep Hsep) as Hpos.
  destruct (le_lt_dec (String.length s) i) as [Hi|Hi].
  - rewrite StrFacts.drop_all in H by exact Hi.
    apply StrFacts.startswith_length in H. simpl in H. lia.
  - apply StrFacts.startswith_length in H.
    rewrite StrFacts.drop_length in H. lia.
Qed.

(** The last piece of a split holds no separator, and the text ends with
    it: either nothing was cut, or a separator stands right before it. *)
Lemma split_loop_last_piece (sep : string) (fuel : nat) :
  sep <> EmptyString ->
  forall s,
    String.length s <= fuel ->
    exists short,
      last_item (split_loop fuel sep s) = Ok short
      /\ find sep short = None
      /\ (short = s \/ exists pre, s = (pre ++ sep ++ short)%string).
Proof.
  intros Hsep.
  pose proof (not_empty_length sep Hsep) as Hpos.
  induction fuel as [|fuel IH]; intros s Hlen; simpl;
    destruct (find sep s) as [i|] eqn:Hfind;
    try (exists s; repeat split; auto; fail).
  - destruct (StrFacts.find_some _ _ _ Hfind) as [Hi _].
    apply (found_fits sep s i Hsep) in Hi. lia.
  - destruct (StrFacts.find_some _ _ _ Hfind) as [Hi _].
    pose proof (found_fits sep s i Hsep Hi) as Hfit.
    apply StrFacts.startswith_iff in Hi as [post Hi].
    assert (Hpost : drop (i + String.length sep) s = post).
    { now rewrite <- StrFacts.drop_drop, Hi, StrFacts.drop_append. }
    assert (Hs : s = (take i s ++ sep ++ post)%string).
    { rewrite <- Hi. symmetry. apply StrFacts.take_drop. }
    rewrite Hpost.
    destruct (IH post) as (short & Hlast & Hnone & Hshape).
    { rewrite <- Hpost, StrFacts.drop_length. lia. }
    exists short. split; [now apply StrFacts.last_item_cons|].
    split; [exact Hnone|]. right.
    destruct Hshape as [->|[pre Hpre]].
    + now exists (take i s).
    + exists (take i s ++ sep ++ pre)%string.
      rewrite Hs at 1. rewrite Hpre.
      now rewrite !StrFacts.append_assoc.
Qed.

(** Line 139 on a first entry with a title. *)
Lemma shorten_title_shape (first : entry) (rest : list entry)
    (full : string) :
  title first = Some full ->
  exists short,
    shorten_title (first :: rest) = Ok (set_title short first :: rest)
    /\ find "Optimum " short = None
    /\ (short = full
        \/ exists pre, full = (pre ++ "Optimum " ++ short)%string).
Proof.
  intros Htitle.
  destruct (split_loop_last_piece
              "Optimum " (String.length full) StrFacts.optimum_not_empty
              full (le_n _))
    as (short & Hlast & Hnone & Hshape).
  exists short. split; [|split; [exact Hnone | exact Hshape]].
  unfold shorten_title. cbn [first_item Result.bind tl].
  rewrite Htitle. cbn [getitem Result.of_option Result.bind].
  unfold Str.split. now rewrite Hlast.
Qed.

End SplitFacts.

(** X6: when line 139 returns, it has changed the title of the first entry
    and nothing else; the new title contains no ["Optimum "], and it is the
    old title or what follows an ["Optimum "] in the old title. *)
Theorem shorten_title_result :
  forall (toc toc' : list entry),
    shorten_title toc = Ok toc' ->
    exists first rest full short,
      toc = first :: rest
      /\ title first = Some full
      /\ toc' = set_title short first :: rest
      /\ ~ contains "Optimum " short
      /\ (short = full
          \/ exists pre, full = (pre ++ "Optimum " ++ short)%string).
Proof.
  intros [|first rest] toc'; [discriminate|].
  destruct (title first) as [full|] eqn:Htitle.
  - destruct (SplitFacts.shorten_title_shape first rest full Htitle)
      as (short & -> & Hnone & Hshape).
    intros [= <-]. exists first, rest, full, short.
    repeat split; auto.
    apply StrFacts.absent_by_scan; [discriminate | exact Hnone].
  - unfold shorten_title. cbn [first_item Result.bind].
    rewrite Htitle. discriminate.
Qed.

Lemma shorten_title_result_witness :
  exists first rest full short,
    [Entry (Some "Optimum for Optimum Habana") None (Some [intro]) None]
    = first :: rest
    /\ title first = Some full
    /\ [Entry (Some "Habana") None (Some [intro]) None]
       = set_title short first :: rest
    /\ ~ contains "Optimum " short
    /\ (short = full
        \/ exists pre, full = (pre ++ "Optimum " ++ short)%string).
Proof.
  apply (shorten_title_result
           [Entry (Some "Optimum for Optimum Habana") None (Some [intro]) None]
           [Entry (Some "Habana") None (Some [intro]) None]).
  reflexivity.
Defined.

(** X7: shortening the title is idempotent: on the table of contents it
    returns, line 139 changes nothing. *)
Theorem shorten_title_idempotent :
  forall (toc toc' : list entry),
    shorten_title toc = Ok toc' -> shorten_title toc' = Ok toc'.
Proof.
  intros [|first rest] toc'; [discriminate|].
  destruct (title first) as [full|] eqn:Htitle.
  - destruct (SplitFacts.shorten_title_shape first rest full Htitle)
      as (short & -> & Hnone & _).
    intros [= <-].
    unfold shorten_title. cbn [first_item Result.bind tl set_title title].
    cbn [getitem Result.of_option Result.bind].
    rewrite (StrFacts.split_absent _ _ Hnone). reflexivity.
  - unfold shorten_title. cbn [first_item Result.bind].
    rewrite Htitle. discriminate.
Qed.

Lemma shorten_title_idempotent_witness :
  shorten_title acme_toc
  = Ok [Entry (Some "Acme") None (Some [intro]) None]
  /\ shorten_title [Entry (Some "Acme") None (Some [intro]) None]
     = Ok [Entry (Some "Acme") None (Some [intro]) None].
Proof.
  split; [reflexivity|].
  apply (shorten_title_idempotent acme_toc). reflexivity.
Defined.

(** ** The relocation: where it writes, what it copies *)

Module CopyFacts.

Lemma path_eqb_refl (p : path) : Path.eqb p p = true.
Proof. now apply FsFacts.path_eqb_eq. Qed.

Lemma read_write_same (p : path) (c : content) (fs : filesystem) :
  read p (write p c fs) = Some c.
Proof.
  induction fs as [|[q c'] fs IH]; simpl.
  - now rewrite path_eqb_refl.
  - destruct (Path.eqb p q) eqn:E; simpl; rewrite E; [reflexivity | exact IH].
Qed.

Lemma read_write_other (p q : path) (c : content) (fs : filesystem) :
  q <> p -> read q (write p c fs) = read q fs.
Proof.
  intros Hne. induction fs as [|[r c'] fs IH]; simpl.
  - destruct (Path.eqb q p) eqn:E; [|reflexivity].
    apply FsFacts.path_eqb_eq in E. contradiction.
  - destruct (Path.eqb p r) eqn:E; simpl.
    + apply FsFacts.path_eqb_eq in E. subst r.
      destruct (Path.eqb q p) eqn:E'; [|reflexivity].
      apply FsFacts.path_eqb_eq in E'. contradiction.
    + now rewrite IH.
Qed.

(** Writing back what was read changes nothing. *)
Lemma write_read (p : path) (c : content) (fs : filesystem) :
  read p fs = Some c -> write p c fs = fs.
Proof.
  induction fs as [|[q c'] fs IH]; simpl; [discriminate|].
  destruct (Path.eqb p q) eqn:E.
  - now intros [= ->].
  - intros H. now rewrite IH.
Qed.

(** One round of the copy loop. *)
Lemma copy_step (subpackage : string) (optimum_path : path)
    (version : string) (q : path) (rest : list path) (fs : filesystem)
    (d : path) (c : content) :
  new_path_in_optimum subpackage optimum_path version q = Some d ->
  read q fs = Some c ->
  copy_html_paths subpackage optimum_path version (q :: rest) fs
  = copy_html_paths subpackage optimum_path version rest (write d c fs).
Proof.
  unfold new_path_in_optimum. intros Hd Hread. cbn [copy_html_paths].
  unfold IO.bind, IO.lift, IO.copyfile.
  destruct (nth_error q language_folder_level); [|discriminate].
  injection Hd as <-. cbn [Result.of_option]. now rewrite Hread.
Qed.

Lemma copy_stop (subpackage : string) (optimum_path : path)
    (version : string) (q : path) (rest : list path) (fs : filesystem) :
  new_path_in_optimum subpackage optimum_path version q = None ->
  copy_html_paths subpackage optimum_path version (q :: rest) fs
  = (fs, Err IndexError).
Proof.
  unfold new_path_in_optimum. intros Hd. cbn [copy_html_paths].
  unfold IO.bind, IO.lift.
  now destruct (nth_error q language_folder_level).
Qed.

Lemma copy_missing (subpackage : string) (optimum_path : path)
    (version : string) (q : path) (rest : list path) (fs : filesystem)
    (d : path) :
  new_path_in_optimum subpackage optimum_path version q = Some d ->
  read q fs = None ->
  copy_html_paths subpackage optimum_path version (q :: rest) fs
  = (fs, Err FileNotFoundError).
Proof.
  unfold new_path_in_optimum. intros Hd Hread. cbn [copy_html_paths].
  unfold IO.bind, IO.lift, IO.copyfile.
  destruct (nth_error q language_folder_level); [|discriminate].
  cbn [Result.of_option]. now rewrite Hread.
Qed.

Lemma new_path_some (subpackage : string) (optimum_path : path)
    (version : string) (q : path) :
  4 <= List.length q ->
  exists d, new_path_in_optimum subpackage optimum_path version q = Some d.
Proof.
  intros Hq. unfold new_path_in_optimum, language_folder_level.
  destruct (nth_error q 3) eqn:E; [eauto|].
  apply nth_error_None in E. lia.
Qed.

Lemma new_path_none (subpackage : string) (optimum_path : path)
    (version : string) (q : path) :
  List.length q < 4 ->
  new_path_in_optimum subpackage optimum_path version q = None.
Proof.
  intros Hq. unfold new_path_in_optimum, language_folder_level.
  assert (nth_error q 3 = None) as -> by (apply nth_error_None; lia).
  reflexivity.
Qed.

(** The outcome of the loop is read off the enumeration. *)
Lemma copy_outcome (subpackage : string) (optimum_path : path)
    (version : string) (paths : list path) :
  forall fs,
    (forall q, In q paths -> In q (map fst fs)) ->
    snd (copy_html_paths subpackage optimum_path version paths fs)
    = if forallb (fun p : path => (4 <=? List.length p)%nat) paths
      then Ok tt else Err IndexError.
Proof.
  induction paths as [|q paths IH]; intros fs Hlisted; [reflexivity|].
  cbn [forallb]. destruct (4 <=? List.length q)%nat eqn:Hq.
  - apply Nat.leb_le in Hq.
    destruct (new_path_some subpackage optimum_path version q Hq) as [d Hd].
    destruct (FsFacts.read_listed q fs) as [c Hread];
      [apply Hlisted; now left|].
    rewrite (copy_step _ _ _ _ _ _ _ _ Hd Hread). cbn [andb].
    apply IH. intros r Hr.
    apply FsFacts.write_keeps_listed, Hlisted. now right.
  - apply Nat.leb_gt in Hq.
    rewrite copy_stop by now apply new_path_none. reflexivity.
Qed.



Lemma relative_to_app (root rel : path) :
  Path.relative_to root (root ++ rel) = Some rel.
Proof.
  induction root as [|a root IH]; simpl; [reflexivity|].
  now rewrite String.eqb_refl.
Qed.

(** Every destination lies below [optimum_path]. *)
Lemma new_path_inside (subpackage : string) (optimum_path : path)
    (version : string) (q d : path) :
  new_path_in_optimum subpackage optimum_path version q = Some d ->
  outside optimum_path d = false.
Proof.
  unfold new_path_in_optimum.
  destruct (nth_error q language_folder_level); [|discriminate].
  intros [= <-]. unfold outside. now rewrite relative_to_app.
Qed.

End CopyFacts.

Module Delivery.





End Delivery.





(** ** [main]: what it leaves alone *)

Module FrameFacts.

Lemma agree_refl (root : path) (fs : filesystem) : agree_outside root fs fs.
Proof. split; reflexivity. Qed.

Lemma agree_sym (root : path) (fs fs' : filesystem) :
  agree_outside root fs fs' -> agree_outside root fs' fs.
Proof. intros [H1 H2]. split; [now symmetry|]. intros q Hq. now rewrite H2. Qed.

Lemma agree_trans (root : path) (fs fs' fs'' : filesystem) :
  agree_outside root fs fs' -> agree_outside root fs' fs'' ->
  agree_outside root fs fs''.
Proof.
  intros [H1 H2] [H1' H2']. split; [congruence|].
  intros q Hq. now rewrite H2', H2.
Qed.

Lemma agree_write (root p : path) (c : content) (fs : filesystem) :
  outside root p = false -> agree_outside root fs (write p c fs).
Proof.
  intros Hp. split.
  - induction fs as [|[q c'] fs IH]; simpl.
    + now rewrite Hp.
    + destruct (Path.eqb p q); simpl; [reflexivity|].
      now rewrite IH.
  - intros q Hq. apply CopyFacts.read_write_other. intros ->. congruence.
Qed.

Lemma agree_copy (subpackage : string) (optimum_path : path)
    (version : string) (paths : list path) :
  forall fs,
    agree_outside optimum_path fs
      (fst (copy_html_paths subpackage optimum_path version paths fs)).
Proof.
  induction paths as [|q paths IH]; intros fs; [apply agree_refl|].
  destruct (new_path_in_optimum subpackage optimum_path version q)
    as [dq|] eqn:Hq.
  - destruct (read q fs) as [c|] eqn:Hread.
    + rewrite (CopyFacts.copy_step _ _ _ _ _ _ _ _ Hq Hread).
      eapply agree_trans; [|apply IH].
      apply agree_write. now apply CopyFacts.new_path_inside in Hq.
    + rewrite (CopyFacts.copy_missing _ _ _ _ _ _ _ Hq Hread).
      apply agree_refl.
  - rewrite (CopyFacts.copy_stop _ _ _ _ _ _ Hq). apply agree_refl.
Qed.

Lemma agree_relocation (subpackage : string)
    (subpackage_path optimum_path : path) (version : string)
    (fs : filesystem) :
  agree_outside optimum_path fs
    (fst (rename_copy_subpackage_html_paths
            subpackage subpackage_path optimum_path version fs)).
Proof.
  unfold rename_copy_subpackage_html_paths, IO.bind, IO.rglob.
  apply agree_copy.
Qed.

(** An iteration leaves the file system the relocation leaves. *)
Lemma process_files (version subpackage : string) (base_toc : list entry)
    (fs : filesystem) :
  fst (process version subpackage base_toc fs)
  = if (subpackage =? "neuron")%string then fs
    else fst (relocate_and_rewrite version subpackage fs).
Proof.
  unfold process. destruct (subpackage =? "neuron")%string; [reflexivity|].
  unfold IO.bind at 1.
  destruct (relocate_and_rewrite version subpackage fs) as [fs1 [toc|e]];
    [|reflexivity].
  destruct (negb (subpackage =? "graphcore")%string); [|reflexivity].
  unfold IO.bind, IO.lift, IO.ret. now destruct (first_item toc).
Qed.

Lemma agree_process (version subpackage : string) (base_toc : list entry)
    (fs : filesystem) :
  agree_outside optimum_path fs
    (fst (process version subpackage base_toc fs)).
Proof.
  rewrite process_files.
  destruct (subpackage =? "neuron")%string; [apply agree_refl|].
  rewrite FsFacts.relocate_and_rewrite_files. apply agree_relocation.
Qed.

Lemma agree_for_each (version : string) (subpackages : list string) :
  forall (base_toc : list entry) (fs : filesystem),
    agree_outside optimum_path fs
      (fst (for_each_subpackage version subpackages base_toc fs)).
Proof.
  induction subpackages as [|subpackage rest IH]; intros base_toc fs;
    [apply agree_refl|].
  cbn [for_each_subpackage]. unfold IO.bind at 1.
  pose proof (agree_process version subpackage base_toc fs) as Hstep.
  destruct (process version subpackage base_toc fs) as [fs1 [toc|e]];
    [|exact Hstep].
  eapply agree_trans; [exact Hstep | apply IH].
Qed.

(** What [rglob] finds is not outside its root. *)
Lemma rglob_inside (root : path) (pattern : string -> bool)
    (fs : filesystem) (p : path) :
  In p (Path.rglob root pattern fs) -> outside root p = false.
Proof.
  unfold Path.rglob, outside. intros H. apply filter_In in H as [_ H].
  now destruct (Path.relative_to root p).
Qed.

Lemma next_in {A} (l : list A) (a : A) : next l = Ok a -> In a l.
Proof. destruct l; [discriminate | intros [= ->]; now left]. Qed.

End FrameFacts.

(** X12: for a version and subpackage names that are plain path
    components, [main] changes and creates files below [optimum-doc-build]
    only, whether or not it raises: outside that folder the file system has
    the same files, enumerated in the same order and with the same
    contents, as before. *)
Theorem main_writes_below_optimum_only :
  forall (subpackages : list string) (version : string) (fs : filesystem),
    is_component version = true ->
    forallb is_component subpackages = true ->
    agree_outside optimum_path fs (fst (main subpackages version fs)).
Proof.
  intros subpackages version fs _ _.
  unfold main, IO.bind at 1 2, IO.rglob, IO.lift.
  destruct (next (Path.rglob optimum_path is_toctree fs)) as [p|e] eqn:Hnext;
    [|apply FrameFacts.agree_refl].
  apply FrameFacts.next_in, FrameFacts.rglob_inside in Hnext.
  unfold IO.bind at 1, IO.load.
  destruct (read p fs) as [[data|toc]|]; try apply FrameFacts.agree_refl.
  unfold IO.bind, main_loop, IO.dump.
  pose proof (FrameFacts.agree_for_each version (rev subpackages) toc fs)
    as Hloop.
  destruct (for_each_subpackage version (rev subpackages) toc fs)
    as [fs1 [toc'|e]]; [|exact Hloop].
  eapply FrameFacts.agree_trans; [exact Hloop|].
  now apply FrameFacts.agree_write.
Qed.

Lemma main_writes_below_optimum_only_witness :
  agree_outside optimum_path partner_files
    (fst (main ["habana"; "neuron"; "graphcore"; "intel"] "main"
               partner_files)).
Proof.
  apply (main_writes_below_optimum_only
           ["habana"; "neuron"; "graphcore"; "intel"] "main" partner_files);
    reflexivity.
Defined.

(** ** The loop of [main]: any list, any parent *)

Module LoopFacts.

Lemma insert_behind_first {A} (x first : A) (rest : list A) :
  insert 1 x (first :: rest) = first :: x :: rest.
Proof. reflexivity. Qed.

(** One iteration puts what [inserted_by] returns behind the first entry. *)
Lemma process_inserted (version subpackage : string) (first : entry)
    (rest : list entry) (fs : filesystem) :
  process version subpackage (first :: rest) fs
  = (let* entries := inserted_by version subpackage in
     IO.ret (first :: entries ++ rest)) fs.
Proof.
  unfold process, inserted_by.
  destruct (subpackage =? "neuron")%string; [reflexivity|].
  unfold IO.bind.
  destruct (relocate_and_rewrite version subpackage fs) as [fs1 [toc|e]];
    [|reflexivity].
  destruct (negb (subpackage =? "graphcore")%string); [|reflexivity].
  unfold IO.lift, IO.ret. now destruct (first_item toc).
Qed.

(** An iteration inserts at most one entry. *)
Lemma inserted_by_short (version subpackage : string) (fs fs' : filesystem)
    (entries : list entry) :
  inserted_by version subpackage fs = (fs', Ok entries) ->
  rev entries = entries.
Proof.
  unfold inserted_by.
  destruct (subpackage =? "neuron")%string; [now intros [= _ <-]|].
  unfold IO.bind.
  destruct (relocate_and_rewrite version subpackage fs) as [fs1 [toc|e]];
    [|discriminate].
  destruct (negb (subpackage =? "graphcore")%string);
    [|now intros [= _ <-]].
  unfold IO.lift, IO.ret. destruct (first_item toc); [|discriminate].
  now intros [= _ <-].
Qed.

Lemma for_each_inserted (version : string) (subpackages : list string)
    (first : entry) :
  forall (rest : list entry) (fs : filesystem),
    for_each_subpackage version subpackages (first :: rest) fs
    = (let* entries := inserted version subpackages in
       IO.ret (first :: rev entries ++ rest)) fs.
Proof.
  induction subpackages as [|subpackage subpackages IH]; intros rest fs;
    [reflexivity|].
  cbn [for_each_subpackage inserted]. unfold IO.bind at 1.
  rewrite process_inserted. unfold IO.bind.
  destruct (inserted_by version subpackage fs) as [fs1 [entries|e]] eqn:Hby;
    [|reflexivity].
  apply inserted_by_short in Hby.
  unfold IO.ret at 1. rewrite IH. unfold IO.bind, IO.ret.
  destruct (inserted version subpackages fs1) as [fs2 [others|e]];
    [|reflexivity].
  now rewrite rev_app_distr, Hby, <- app_assoc.
Qed.

End LoopFacts.

(** X15: for every list of subpackages, ["neuron"] and ["graphcore"]
    included, and every parent table of contents with a first entry, the
    loop leaves the first entry in place and puts behind it the entries the
    iterations insert, in the order of the caller's list, followed by the
    former rest; it raises exactly when one of the iterations does. *)
Theorem main_loop_inserts_in_caller_order :
  forall (version : string) (subpackages : list string) (first : entry)
         (rest : list entry) (fs : filesystem),
    main_loop version subpackages (first :: rest) fs
    = (let* entries := inserted version (rev subpackages) in
       IO.ret (first :: rev entries ++ rest)) fs.
Proof.
  intros. unfold main_loop. apply LoopFacts.for_each_inserted.
Qed.

(** X16: on an empty parent table of contents the order of the caller is
    lost: the first insertion lands at index 0, the later ones behind it,
    so three standard subpackages [A], [B], [C] end up as [C], [A], [B]. *)
Theorem main_loop_on_empty_parent :
  forall (version A B C : string) (fs0 fs1 fs2 fs3 : filesystem)
         (eA eB eC : entry) (tA tB tC : list entry),
    standard A -> standard B -> standard C ->
    relocate_and_rewrite version C fs0 = (fs1, Ok (eC :: tC)) ->
    relocate_and_rewrite version B fs1 = (fs2, Ok (eB :: tB)) ->
    relocate_and_rewrite version A fs2 = (fs3, Ok (eA :: tA)) ->
    main_loop version [A; B; C] [] fs0 = (fs3, Ok [eC; eA; eB]).
Proof.
  intros version A B C fs0 fs1 fs2 fs3 eA eB eC tA tB tC
         [HAn HAg] [HBn HBg] [HCn HCg] HC HB HA.
  apply String.eqb_neq in HAn, HAg, HBn, HBg, HCn, HCg.
  unfold main_loop. cbn [rev app for_each_subpackage].
  unfold process. rewrite HAn, HAg, HBn, HBg, HCn, HCg. cbn [negb].
  unfold IO.bind. rewrite HC. cbn [IO.lift first_item IO.ret].
  rewrite HB. cbn [IO.lift first_item IO.ret].
  rewrite HA. reflexivity.
Qed.

Lemma main_loop_on_empty_parent_witness :
  exists fs,
    main_loop "main" ["habana"; "acme"; "intel"] []
              (partner_files ++ acme_files)
    = (fs, Ok [intel_entry; habana_entry; acme_entry]).
Proof.
  eexists.
  eapply (main_loop_on_empty_parent "main" "habana" "acme" "intel");
    try (split; discriminate); vm_compute; reflexivity.
Defined.

(** ** The tables of contents come from the builds as they were *)

Module DiskFacts.

Lemma append_inj_r (s s' t : string) :
  (s ++ t)%string = (s' ++ t)%string -> s = s'.
Proof.
  revert s'. induction s as [|a s IH]; intros [|a' s'] H; simpl in H.
  - reflexivity.
  - apply (f_equal String.length) in H. simpl in H.
    rewrite StrFacts.append_length in H. lia.
  - apply (f_equal String.length) in H. simpl in H.
    rewrite StrFacts.append_length in H. lia.
  - injection H as -> H. now rewrite (IH s' H).
Qed.

(** The build of a subpackage other than ["optimum"] is not Optimum's. *)
Lemma build_outside (subpackage : string) (rel : path) :
  subpackage <> "optimum"%string ->
  outside optimum_path ((subpackage ++ "-doc-build")%string :: rel) = true.
Proof.
  intros Hne. unfold outside, optimum_path. cbn [Path.relative_to].
  destruct ("optimum-doc-build" =? subpackage ++ "-doc-build")%string eqn:E;
    [|reflexivity].
  apply String.eqb_eq in E. elim Hne. symmetry.
  now apply (append_inj_r "optimum" subpackage "-doc-build").
Qed.

Lemma relative_to_cons (r : string) (p rel : path) :
  Path.relative_to [r] p = Some rel -> p = r :: rel.
Proof.
  destruct p as [|a p]; simpl; [discriminate|].
  destruct (r =? a)%string eqn:E; [|discriminate].
  apply String.eqb_eq in E. now intros [= ->]; subst.
Qed.

Lemma rglob_build_outside (subpackage : string) (pattern : string -> bool)
    (fs : filesystem) (p : path) :
  subpackage <> "optimum"%string ->
  In p (Path.rglob [(subpackage ++ "-doc-build")%string] pattern fs) ->
  outside optimum_path p = true.
Proof.
  intros Hne Hp. unfold Path.rglob in Hp. apply filter_In in Hp as [_ Hp].
  destruct (Path.relative_to [(subpackage ++ "-doc-build")%string] p)
    as [rel|] eqn:Hrel; [|discriminate].
  apply relative_to_cons in Hrel as ->. now apply build_outside.
Qed.

Lemma filter_within {A} (g h : A -> bool) (l : list A) :
  (forall x, g x = true -> h x = true) ->
  filter g (filter h l) = filter g l.
Proof.
  intros Hsub. induction l as [|x l IH]; simpl; [reflexivity|].
  destruct (h x) eqn:Hh; simpl.
  - now rewrite IH.
  - destruct (g x) eqn:Hg; [|exact IH].
    apply Hsub in Hg. congruence.
Qed.

(** What is found in the build of a subpackage does not depend on what
    lies below [optimum-doc-build]. *)
Lemma rglob_agree (subpackage : string) (pattern : string -> bool)
    (fs fs' : filesystem) :
  subpackage <> "optimum"%string ->
  agree_outside optimum_path fs fs' ->
  Path.rglob [(subpackage ++ "-doc-build")%string] pattern fs'
  = Path.rglob [(subpackage ++ "-doc-build")%string] pattern fs.
Proof.
  intros Hne [Hlist _]. unfold Path.rglob.
  set (g := fun p : path =>
              match Path.relative_to [(subpackage ++ "-doc-build")%string] p
              with
              | Some (_ :: _) => pattern (Path.name p)
              | _ => false
              end).
  assert (Hsub : forall p, g p = true -> outside optimum_path p = true).
  { intros p Hp. unfold g in Hp.
    destruct (Path.relative_to [(subpackage ++ "-doc-build")%string] p)
      as [rel|] eqn:Hrel; [|discriminate].
    apply relative_to_cons in Hrel as ->. now apply build_outside. }
  rewrite <- (filter_within g (outside optimum_path) (map fst fs') Hsub).
  rewrite <- (filter_within g (outside optimum_path) (map fst fs) Hsub).
  now rewrite Hlist.
Qed.

Lemma relocate_and_rewrite_eq (version subpackage : string) :
  relocate_and_rewrite version subpackage
  = (let* _ :=
       rename_copy_subpackage_html_paths
         subpackage [(subpackage ++ "-doc-build")%string] optimum_path
         version in
     load_and_rewrite subpackage).
Proof. reflexivity. Qed.

Lemma load_and_rewrite_files (subpackage : string) (fs : filesystem) :
  fst (load_and_rewrite subpackage fs) = fs.
Proof.
  unfold load_and_rewrite, IO.bind, IO.rglob, IO.lift, IO.load.
  destruct (next _) as [p|]; [|reflexivity].
  destruct (read p fs) as [[data|toc]|]; try reflexivity.
  now destruct (rename_subpackage_toc subpackage toc).
Qed.

Lemma load_and_rewrite_agree (subpackage : string) (fs fs' : filesystem) :
  subpackage <> "optimum"%string ->
  agree_outside optimum_path fs fs' ->
  snd (load_and_rewrite subpackage fs')
  = snd (load_and_rewrite subpackage fs).
Proof.
  intros Hne Hagree.
  unfold load_and_rewrite, IO.bind, IO.rglob, IO.lift, IO.load.
  rewrite (rglob_agree subpackage is_toctree fs fs' Hne Hagree).
  destruct (next _) as [p|] eqn:Hnext; [|reflexivity].
  apply FrameFacts.next_in, (rglob_build_outside _ _ _ _ Hne) in Hnext.
  destruct Hagree as [_ Hread]. rewrite (Hread p Hnext).
  destruct (read p fs) as [[data|toc]|]; try reflexivity.
  now destruct (rename_subpackage_toc subpackage toc).
Qed.

Lemma relocation_agree (subpackage version : string) (fs fs' : filesystem) :
  subpackage <> "optimum"%string ->
  agree_outside optimum_path fs fs' ->
  snd (rename_copy_subpackage_html_paths
         subpackage [(subpackage ++ "-doc-build")%string] optimum_path
         version fs')
  = snd (rename_copy_subpackage_html_paths
           subpackage [(subpackage ++ "-doc-build")%string] optimum_path
           version fs).
Proof.
  intros Hne Hagree.
  unfold rename_copy_subpackage_html_paths, IO.bind, IO.rglob.
  rewrite !CopyFacts.copy_outcome by apply FsFacts.rglob_listed.
  now rewrite (rglob_agree subpackage _ fs fs' Hne Hagree).
Qed.

(** What a subpackage yields does not depend on what lies below
    [optimum-doc-build]. *)
Lemma relocate_and_rewrite_agree (version subpackage : string)
    (fs fs' : filesystem) :
  subpackage <> "optimum"%string ->
  agree_outside optimum_path fs fs' ->
  snd (relocate_and_rewrite version subpackage fs')
  = snd (relocate_and_rewrite version subpackage fs).
Proof.
  intros Hne Hagree. rewrite relocate_and_rewrite_eq. unfold IO.bind.
  pose proof (relocation_agree subpackage version fs fs' Hne Hagree) as Hsnd.
  pose proof (FrameFacts.agree_relocation
                subpackage [(subpackage ++ "-doc-build")%string]
                optimum_path version fs) as Hfs.
  pose proof (FrameFacts.agree_relocation
                subpackage [(subpackage ++ "-doc-build")%string]
                optimum_path version fs') as Hfs'.
  destruct (rename_copy_subpackage_html_paths _ _ _ _ fs') as [fs1' r'].
  destruct (rename_copy_subpackage_html_paths _ _ _ _ fs) as [fs1 r].
  cbn [fst snd] in *. subst r'. destruct r as [[]|e]; [|reflexivity].
  cbv beta iota. apply load_and_rewrite_agree; [exact Hne|].
  eapply FrameFacts.agree_trans; [apply FrameFacts.agree_sym, Hfs|].
  eapply FrameFacts.agree_trans; [exact Hagree | exact Hfs'].
Qed.

(** The value of one iteration. *)
Lemma process_value (version subpackage : string) (base_toc : list entry)
    (fs : filesystem) :
  snd (process version subpackage base_toc fs)
  = if (subpackage =? "neuron")%string then Ok (add_neuron_doc base_toc)
    else
      let! subpackage_toc := snd (relocate_and_rewrite version subpackage fs) in
      if negb (subpackage =? "graphcore")%string then
        let! first := first_item subpackage_toc in
        Ok (insert 1 first base_toc)
      else Ok base_toc.
Proof.
  unfold process. destruct (subpackage =? "neuron")%string; [reflexivity|].
  unfold IO.bind.
  destruct (relocate_and_rewrite version subpackage fs) as [fs1 [toc|e]];
    [|reflexivity].
  cbn [snd Result.bind].
  destruct (negb (subpackage =? "graphcore")%string); [|reflexivity].
  unfold IO.lift, IO.ret. now destruct (first_item toc).
Qed.

Lemma process_agree (version subpackage : string) (base_toc : list entry)
    (fs fs' : filesystem) :
  subpackage <> "optimum"%string ->
  agree_outside optimum_path fs fs' ->
  snd (process version subpackage base_toc fs')
  = snd (process version subpackage base_toc fs).
Proof.
  intros Hne Hagree. rewrite !process_value.
  now rewrite (relocate_and_rewrite_agree version subpackage fs fs').
Qed.

(** The loop, started from a file system that agrees with [fs] outside
    [optimum-doc-build], yields what every iteration yields on [fs]. *)
Lemma for_each_agree (version : string) (subpackages : list string)
    (fs : filesystem) :
  Forall (fun subpackage => subpackage <> "optimum"%string) subpackages ->
  forall (base_toc : list entry) (fs' : filesystem),
    agree_outside optimum_path fs fs' ->
    snd (for_each_subpackage version subpackages base_toc fs')
    = fold_left
        (fun (r : result (list entry)) subpackage =>
           let! base_toc := r in
           snd (process version subpackage base_toc fs))
        subpackages (Ok base_toc).
Proof.
  induction 1 as [|subpackage subpackages Hne _ IH];
    intros base_toc fs' Hagree; [reflexivity|].
  cbn [for_each_subpackage fold_left Result.bind]. unfold IO.bind.
  rewrite <- (process_agree version subpackage base_toc fs fs' Hne Hagree).
  pose proof (FrameFacts.agree_process version subpackage base_toc fs')
    as Hstep.
  destruct (process version subpackage base_toc fs') as [fs1 [toc|e]].
  - cbn [snd]. apply IH.
    eapply FrameFacts.agree_trans; [exact Hagree | exact Hstep].
  - cbn [snd]. clear. induction subpackages as [|s l IH]; [reflexivity|].
    exact IH.
Qed.

End DiskFacts.

(** X18: when the version and the subpackage names are plain path
    components and no subpackage is ["optimum"] (whose build would be
    Optimum's own), the relocations done for one subpackage never change
    what the loop does for the next ones: the result of the loop is
    obtained by running every iteration, in the order of the loop, on the
    file system as it was before the loop. *)
Theorem main_loop_reads_builds_as_they_were :
  forall (version : string) (subpackages : list string)
         (base_toc : list entry) (fs : filesystem),
    is_component version = true ->
    Forall (fun subpackage =>
              is_component subpackage = true
              /\ subpackage <> "optimum"%string)
           subpackages ->
    snd (main_loop version subpackages base_toc fs)
    = fold_left
        (fun (r : result (list entry)) subpackage =>
           let! base_toc := r in
           snd (process version subpackage base_toc fs))
        (rev subpackages) (Ok base_toc).
Proof.
  intros version subpackages base_toc fs _ Hne. unfold main_loop.
  apply DiskFacts.for_each_agree.
  - apply Forall_forall. intros s Hs. apply in_rev in Hs.
    rewrite Forall_forall in Hne. now apply Hne.
  - apply FrameFacts.agree_refl.
Qed.

Lemma main_loop_reads_builds_as_they_were_witness :
  snd (main_loop "main" ["habana"; "neuron"; "graphcore"; "intel"]
                 [home; intro] partner_files)
  = Ok [home; habana_entry; neuron_entry; intel_entry; intro].
Proof.
  rewrite (main_loop_reads_builds_as_they_were
             "main" ["habana"; "neuron"; "graphcore"; "intel"]
             [home; intro] partner_files).
  - vm_compute. reflexivity.
  - reflexivity.
  - repeat constructor; discriminate.
Defined.

(** ** What [main] writes *)

Module MainFacts.

Lemma inserted_by_length (version subpackage : string) (fs fs' : filesystem)
    (entries : list entry) :
  inserted_by version subpackage fs = (fs', Ok entries) ->
  List.length entries <= 1.
Proof.
  unfold inserted_by.
  destruct (subpackage =? "neuron")%string;
    [intros [= _ <-]; simpl; lia|].
  unfold IO.bind.
  destruct (relocate_and_rewrite version subpackage fs) as [fs1 [toc|e]];
    [|discriminate].
  destruct (negb (subpackage =? "graphcore")%string);
    [|intros [= _ <-]; simpl; lia].
  unfold IO.lift, IO.ret. destruct (first_item toc); [|discriminate].
  intros [= _ <-]. simpl. lia.
Qed.

Lemma inserted_length (version : string) (subpackages : list string) :
  forall (fs fs' : filesystem) (entries : list entry),
    inserted version subpackages fs = (fs', Ok entries) ->
    List.length entries <= List.length subpackages.
Proof.
  induction subpackages as [|subpackage subpackages IH];
    intros fs fs' entries; cbn [inserted].
  - intros [= _ <-]. simpl. lia.
  - unfold IO.bind.
    destruct (inserted_by version subpackage fs) as [fs1 [es|e]] eqn:Hby;
      [|discriminate].
    destruct (inserted version subpackages fs1) as [fs2 [others|e]] eqn:Hrest;
      [|discriminate].
    unfold IO.ret. intros [= _ <-].
    apply inserted_by_length in Hby. apply IH in Hrest.
    rewrite length_app. simpl. lia.
Qed.

End MainFacts.

(** X19: when [main] returns, the parent [_toctree.yml] holds every entry
    it held, in the same order, with the new entries, at most one for each
    subpackage, between its first and its second entry. *)
Theorem main_keeps_parent_entries :
  forall (subpackages : list string) (version : string)
         (fs fs' : filesystem) (p : path) (first : entry)
         (rest : list entry),
    next (Path.rglob optimum_path is_toctree fs) = Ok p ->
    read p fs = Some (Toctree (first :: rest)) ->
    main subpackages version fs = (fs', Ok tt) ->
    exists entries,
      read p fs' = Some (Toctree (first :: entries ++ rest))
      /\ List.length entries <= List.length subpackages.
Proof.
  intros subpackages version fs fs' p first rest Hnext Hread.
  unfold main, IO.bind at 1 2 3, IO.rglob, IO.lift, IO.load.
  rewrite Hnext, Hread. unfold IO.bind, main_loop.
  rewrite LoopFacts.for_each_inserted. unfold IO.bind, IO.ret, IO.dump.
  destruct (inserted version (rev subpackages) fs) as [fs1 [entries|e]] eqn:Hins;
    [|discriminate].
  intros [= <-]. exists (rev entries). split.
  - apply CopyFacts.read_write_same.
  - apply MainFacts.inserted_length in Hins.
    now rewrite length_rev in *.
Qed.

Lemma main_keeps_parent_entries_witness :
  exists entries,
    read ["optimum-doc-build"; "_toctree.yml"]
         (fst (main ["habana"; "graphcore"; "intel"] "main" partner_files))
    = Some (Toctree (home :: entries ++ [intro]))
    /\ List.length entries <= 3.
Proof.
  apply (main_keeps_parent_entries
           ["habana"; "graphcore"; "intel"] "main" partner_files
           (fst (main ["habana"; "graphcore"; "intel"] "main" partner_files))
           ["optimum-doc-build"; "_toctree.yml"] home [intro]);
    vm_compute; reflexivity.
Defined.

(** ** The iteration for the subpackage left out of the table of contents *)


